(** * seas.ica: decomposition and reconstruction control logic

    A shallow embedding of [src/seas/ica.py]: the mean-signal filter
    dispatcher [filter_mean], the reconstruction engine [rebuild], the
    linearity-transition estimator [approximate_svd_linearity_transition]
    and the control logic of the decomposition entry point [project]
    (adaptive component search, post-hoc crop, fixed-count normalizer,
    residual accounting), together with the two readers of a
    decomposition, [rebuild_mean_roi_timecourse] and [rebuild_eigenbrain].

    Conventions of the embedding.
    - Floating-point arrays are lists of exact rationals ([Q]); rounding is
      not modelled.  Integer and label arrays are lists of [Z] and [bool].
    - A 2-D array is held by its columns (axis 1) together with its row
      count: every operation of the source on [eig_vec] and [eig_mix]
      selects, reorders, negates or slices columns.
    - A Python call either returns, raises, or (for the search loop, run
      with fuel) has not returned yet: the [outcome] type.
    - The numerical solvers, the noise classifier and the filtering
      primitives are collaborators of the module, not part of it; they are
      the fields of the class [Collaborators].
    - [print] calls are left out, except the report of the residual handler
      of [project], which is returned as a list of lines. *)

From Stdlib Require Import QArith Qabs Qround ZArith Lia.
From stdpp Require Import base list gmap sorting strings.

(** ** Python outcomes *)

Module Py.

Inductive exn : Type :=
  | ValueError
  | IndexError
  | TypeError
  | AssertionError
  | ZeroDivisionError
  | LinAlgError
  | KeyError (key : string)
  | UnboundLocalError (name : string)
  | Exception (msg : string).

Inductive outcome (A : Type) : Type :=
  | Ok (a : A)
  | Raise (e : exn)
  | OutOfFuel.

Arguments Ok {A} a.
Arguments Raise {A} e.
Arguments OutOfFuel {A}.

#[global] Instance outcome_ret : MRet outcome := @Ok.

#[global] Instance outcome_bind : MBind outcome := λ A B f m,
  match m with
  | Ok a => f a
  | Raise e => Raise e
  | OutOfFuel => OutOfFuel
  end.

Definition raises {A} (m : outcome A) : Prop := ∃ e, m = Raise e.

Definition returns {A} (m : outcome A) : Prop := ∃ a, m = Ok a.

(** [assert cond] *)
Definition assert (cond : bool) : outcome unit :=
  if cond then Ok () else Raise AssertionError.

(** Reading a dictionary key that may be absent. *)
Definition getitem {A} (key : string) (field : option A) : outcome A :=
  match field with
  | Some a => Ok a
  | None => Raise (KeyError key)
  end.

(** Reading a local variable that is bound on some paths only. *)
Definition local {A} (name : string) (binding : option A) : outcome A :=
  match binding with
  | Some a => Ok a
  | None => Raise (UnboundLocalError name)
  end.

(** Python binds the keywords of a call to the parameters of the callee
    before its body runs; a keyword that names no parameter is a
    [TypeError]. *)
Definition bind_keywords (params given : list string) : outcome unit :=
  if forallb (λ k, existsb (String.eqb k) params) given
  then Ok () else Raise TypeError.

(** Bounds of the slice [l[start:stop]] of a sequence of length [len]. *)
Definition slice_bound (len : nat) (b : Z) : nat :=
  if (b <? 0)%Z then Z.to_nat (Z.max 0 (b + Z.of_nat len))
  else Nat.min (Z.to_nat b) len.

Definition slice_start (len : nat) (start : option Z) : nat :=
  match start with None => 0 | Some b => slice_bound len b end.

Definition slice_stop (len : nat) (stop : option Z) : nat :=
  match stop with None => len | Some b => slice_bound len b end.

Definition slice_len (len : nat) (start stop : option Z) : nat :=
  slice_stop len stop - slice_start len start.

Definition slice {A} (l : list A) (start stop : option Z) : list A :=
  take (slice_len (length l) start stop)
       (drop (slice_start (length l) start) l).

End Py.

Export Py.

(** ** Arrays *)

Module Np.

Abbreviation vec := (list Q).

Record arr2 (A : Type) : Type := Arr2 {
  nrows : nat;
  columns : list (list A)
}.

Arguments Arr2 {A} nrows columns.
Arguments nrows {A} a.
Arguments columns {A} a.

Definition ncols {A} (a : arr2 A) : nat := length (columns a).

(** A 3-D array (time, height, width), row-major. *)
Record movie : Type := Movie {
  mshape : nat * nat * nat;
  mflat : list Q
}.

Definition Qltb (a b : Q) : bool := negb (Qle_bool b a).

Definition b2z (b : bool) : Z := if b then 1%Z else 0%Z.

Definition sum (v : vec) : Q := foldr Qplus 0%Q v.

(** [np.mean].  The mean of an empty array is not a number in numpy; the
    quotient is 0 here, and it only meets arrays that are empty as well. *)
Definition mean (v : vec) : Q := (sum v / inject_Z (Z.of_nat (length v)))%Q.

Definition zeros_like (v : vec) : vec := map (λ _, 0%Q) v.

Definition zeros (n : nat) : list Z := replicate n 0%Z.

Definition zeros3 (shape : nat * nat * nat) : movie :=
  let '(t, x, y) := shape in Movie shape (replicate (t * x * y) 0%Q).

(** [m[start:stop]]: the frames of the window. *)
Definition slice_movie (m : movie) (start stop : option Z) : movie :=
  let '(t, x, y) := mshape m in
  Movie (slice_len t start stop, x, y)
        (take (slice_len t start stop * (x * y))
              (drop (slice_start t start * (x * y)) (mflat m))).

(** [np.where(p(a))[0]]: the positions at which the test holds. *)
Fixpoint where_from {A} (p : A → bool) (i : nat) (a : list A) : list nat :=
  match a with
  | [] => []
  | v :: a' => if p v then i :: where_from p (S i) a' else where_from p (S i) a'
  end.

Definition where_ {A} (p : A → bool) (a : list A) : list nat := where_from p 0 a.

(** [a[indices]] for an integer index array. *)
Fixpoint take_indices {A} (a : list A) (indices : list nat) : outcome (list A) :=
  match indices with
  | [] => Ok []
  | i :: rest =>
      match a !! i with
      | None => Raise IndexError
      | Some v => vs ← take_indices a rest; Ok (v :: vs)
      end
  end.

(** Broadcasting a 1-D value to a target of [n] entries. *)
Definition broadcast_to {A} (n : nat) (v : list A) : outcome (list A) :=
  if Nat.eqb (length v) n then Ok v
  else match v with
       | [v0] => Ok (replicate n v0)
       | _ => Raise ValueError
       end.

(** [a += b] on 1-D arrays. *)
Definition iadd (a b : list Z) : outcome (list Z) :=
  b' ← broadcast_to (length a) b; Ok (zip_with Z.add a b').

(** [a[np.where(a > 1)] = 1] *)
Definition clamp_to_one (a : list Z) : list Z :=
  map (λ v, if (1 <? v)%Z then 1%Z else v) a.

(** [a[:, indices]] *)
Definition select_columns {A} (a : arr2 A) (indices : list nat) : outcome (arr2 A) :=
  cs ← take_indices (columns a) indices; Ok (Arr2 (nrows a) cs).

(** [a[start:stop, :]] *)
Definition slice_rows {A} (a : arr2 A) (start stop : option Z) : arr2 A :=
  Arr2 (slice_len (nrows a) start stop) (map (λ c, slice c start stop) (columns a)).

(** [np.dot(v, m.T).T]: entry [(tt, p)] is the sum over the components [c]
    of [v[p, c] * m[tt, c]]. *)
Definition dot_T (v m : arr2 Q) : list vec :=
  map (λ tt,
         map (λ p, sum (zip_with (λ vc mc, (nth p vc 0 * nth tt mc 0)%Q)
                                 (columns v) (columns m)))
             (seq 0 (nrows v)))
      (seq 0 (nrows m)).

(** [data += col[:, None]]: one value per row, added along the row. *)
Definition iadd_column (data : list vec) (col : vec) : outcome (list vec) :=
  col' ← broadcast_to (length data) col;
  Ok (zip_with (λ row m, map (λ v, (v + m)%Q) row) data col').

(** [np.any(masks, axis=1)] *)
Definition any_axis1 (masks : arr2 bool) : list bool :=
  map (λ p, existsb (λ c, nth p c false) (columns masks)) (seq 0 (nrows masks)).

(** [np.argmax(np.abs(v))]: the first position of the largest magnitude. *)
Fixpoint argmax_abs_from (v : vec) (i : nat) (best : nat) (bestv : Q) : nat :=
  match v with
  | [] => best
  | a :: v' =>
      if Qltb bestv (Qabs a) then argmax_abs_from v' (S i) i (Qabs a)
      else argmax_abs_from v' (S i) best bestv
  end.

Definition argmax_abs (v : vec) : outcome nat :=
  match v with
  | [] => Raise ValueError
  | a :: v' => Ok (argmax_abs_from v' 1 0 (Qabs a))
  end.

Definition negate (v : vec) : vec := map (λ a, (a * -1)%Q) v.

(** Population variance; [np.std] is its square root, so ordering columns
    by [std] is ordering them by [var]. *)
Definition var (v : vec) : Q :=
  mean (map (λ a, ((a - mean v) * (a - mean v))%Q) v).

#[global] Instance Qle_decision (a b : Q) : Decision (a <= b)%Q.
Proof. unfold Qle. apply _. Defined.

(** [np.argsort(keys)]: the positions in ascending order of key.  Among
    equal keys numpy fixes no order; here it is the order of merge sort. *)
Definition argsort (keys : vec) : list nat :=
  (merge_sort (λ a b : Q * nat, (a.1 <= b.1)%Q) (zip keys (seq 0 (length keys)))).*2.

(** [np.cumsum] *)
Fixpoint cumsum_from (acc : Q) (v : vec) : vec :=
  match v with
  | [] => []
  | a :: v' => (acc + a)%Q :: cumsum_from (acc + a)%Q v'
  end.

Definition cumsum (v : vec) : vec := cumsum_from 0%Q v.

(** [np.arange(n)] *)
Definition arange (n : nat) : vec := map (λ i, inject_Z (Z.of_nat i)) (seq 0 n).

(** [np.polyval(p, x)]: Horner's rule, highest degree first. *)
Definition polyval (p : vec) (x : Q) : Q := fold_left (λ acc c, (acc * x + c)%Q) p 0%Q.

(** [v.min()] *)
Definition min (v : vec) : outcome Q :=
  match v with
  | [] => Raise ValueError
  | a :: v' => Ok (fold_left (λ m b, if Qltb b m then b else m) v' a)
  end.

(** [a[:, indices][:, ::-1]] and [v[indices][::-1]] *)
Definition reorder_columns {A} (a : arr2 A) (indices : list nat) : outcome (arr2 A) :=
  a' ← select_columns a indices; Ok (Arr2 (nrows a') (reverse (columns a'))).

Definition reorder {A} (v : list A) (indices : list nat) : outcome (list A) :=
  v' ← take_indices v indices; Ok (reverse v').

(** [a[:, :n]] and [a[:n, :n]] *)
Definition take_columns {A} (a : arr2 A) (n : nat) : arr2 A :=
  Arr2 (nrows a) (take n (columns a)).

Definition block {A} (a : arr2 A) (n : nat) : arr2 A :=
  Arr2 (Nat.min n (nrows a)) (map (take n) (take n (columns a))).

(** [a[indices]] on the rows of a 2-D array. *)
Definition select_rows {A} (a : arr2 A) (indices : list nat) : outcome (arr2 A) :=
  cs ← mapM (λ c, take_indices c indices) (columns a);
  Ok (Arr2 (length indices) cs).

End Np.

Export Np.

(** ** Collaborators

    The solvers and signal-processing primitives that [seas.ica] imports:
    [scipy.linalg.svd] (with the LAPACK driver it is asked for),
    [sklearn.decomposition.FastICA] (requested component count, [max_iter],
    optional [w_init], whether the input was cast to float64; it yields the
    spatial factors and the mixing matrix), [seas.signalanalysis.sort_noise],
    [lag_n_autocorr] and [butterworth] (signal, [fps], [low], [high]),
    [numpy.polyfit], and the wavelet noise filter (signal, [fps],
    [upperPeriod]). *)

Class Collaborators : Type := {
  svd : bool → arr2 Q → outcome (arr2 Q * vec);
  fast_ica : nat → nat → option (arr2 Q) → bool → arr2 Q → outcome (arr2 Q * arr2 Q);
  sort_noise : list vec → list bool * Q;
  lag_n_autocorr : list vec → nat → vec;
  polyfit : vec → vec → nat → vec;
  butterworth : vec → option Q → option Q → option Q → vec;
  wavelet_noise_filter : vec → Q → Q → vec
}.

(** ** [approximate_svd_linearity_transition] (lines 477-506)

    The spectrum is an array of the caller's store: [eig_val -= eig_val.min()]
    updates it in place, while [eig_val = eig_val / eig_val.sum()] binds the
    local name to a new array. *)

Module Estimator.

Abbreviation loc := nat.

(** What follows the in-place shift.  When the shifted spectrum sums to
    zero the quotient is not a number at every index and the least-squares
    fit rejects it. *)
Definition transition_of `{Collaborators} (shifted : vec) : outcome nat :=
  let total := Np.sum shifted in
  if Qeq_bool total 0 then Raise LinAlgError
  else
    let eig_val := map (λ v, (v / total)%Q) shifted in
    let eig_val_integrated := cumsum eig_val in
    let x := arange (length eig_val) in
    let p := polyfit x eig_val_integrated 2 in
    let y := map (polyval p) x in
    match where_ (λ ab : Q * Q, Qltb ab.2 ab.1) (zip eig_val_integrated y) with
    | [] => Raise IndexError
    | transition :: _ => Ok transition
    end.

Definition approximate_svd_linearity_transition `{Collaborators}
    (eig_val : loc) (h : gmap loc vec) : gmap loc vec * outcome nat :=
  match h !! eig_val with
  | None => (h, Raise TypeError)
  | Some a =>
      match Np.min a with
      | Ok m =>
          let shifted := map (λ v, (v - m)%Q) a in
          (<[eig_val := shifted]> h, transition_of shifted)
      | Raise e => (h, Raise e)
      | OutOfFuel => (h, OutOfFuel)
      end
  end.

End Estimator.

Export Estimator.

Module Ica.

(** ** The components dictionary

    Keys that [project] always sets are plain fields; keys that only some
    paths set, or that are attached later, are optional.  [roimask] is held
    by its row-major flattening, [svd_eigval] is a reference into the store
    that holds the spectrum, and [timecourses] is [eig_mix.T]. *)

Record components : Type := Components {
  mean : vec;
  roimask : option (list Z);
  shape : nat * nat * nat;
  eig_vec : arr2 Q;
  eig_mix : arr2 Q;
  n_components : nat;
  lag1 : vec;
  noise_components : option (list bool);
  cutoff : option Q;
  artifact_components : option (list Z);
  masks : option (option (arr2 bool));
  svd_eigval : option loc;
  increased_cutoff : option nat;
  lag1_full : option vec;
  svd_multiplier : option nat;
  svd_cutoff : option nat;
  flipped : option (list Z);
  residuals_spatial : option vec;
  residuals_temporal : option vec;
  project_meta : option nat
}.

Definition timecourses (c : components) : list vec := columns (eig_mix c).

(** ** [filter_mean] (lines 509-567) *)

Definition newline : string := String (Ascii.ascii_of_nat 10) "".

Definition tab : string := String (Ascii.ascii_of_nat 9) "".

Definition unsupported (filter_method : string) : string :=
  "Filter method '" +:+ filter_method +:+ "' not supported!" +:+ newline +:+ tab
  +:+ " Supported methods: butterworth, butterworth_bandpass, wavelet".

Definition filter_mean `{Collaborators} (mean : vec) (filter_method : string)
    (fps low_cutoff high_cutoff : Q) : outcome vec :=
  if String.eqb filter_method "butterworth" then
    Ok (butterworth mean (Some fps) (Some low_cutoff) None)
  else if String.eqb filter_method "butterworth_lowpass" then
    Ok (butterworth mean (Some fps) None (Some low_cutoff))
  else if String.eqb filter_method "butterworth_bandpass" then
    Ok (butterworth mean (Some fps) (Some low_cutoff) (Some high_cutoff))
  else if String.eqb filter_method "wavelet" then
    if Qeq_bool low_cutoff 0 then Raise ZeroDivisionError
    else Ok (wavelet_noise_filter mean fps (1 / low_cutoff)%Q)
  else if String.eqb filter_method "constant" then
    let mean_template := zeros_like mean in
    let meanest_mean := Np.mean mean in
    Ok (map (λ z, (z + meanest_mean)%Q) mean_template)
  else Raise (Exception (unsupported filter_method)).

(** ** [rebuild] (lines 302-474) *)

(** The [artifact_components] argument: [None], the string ['none'], or an
    array.  The test [artifact_components == 'none'] is taken as the
    sentinel test it is written as: false for an array (numpy answers the
    comparison of an array with a string as a whole). *)
Inductive exclusion_arg : Type :=
  | ArgNone
  | ArgSentinel
  | ArgArray (a : list Z).

Record rebuild_kwargs : Type := RebuildKwargs {
  t_start : option Z;
  t_stop : option Z;
  apply_mean_filter : bool;
  mlow : Q;
  mhigh : Q;
  apply_component_filter : bool;
  chigh : Q;
  apply_masked_mean : bool;
  filter_method : string;
  fps : Q;
  include_noise : bool
}.

Definition rebuild_defaults : rebuild_kwargs := {|
  t_start := None;
  t_stop := None;
  apply_mean_filter := true;
  mlow := 1 # 2;
  mhigh := 1;
  apply_component_filter := false;
  chigh := 1;
  apply_masked_mean := false;
  filter_method := "butterworth_highpass";
  fps := 15 # 2;
  include_noise := true
|}.

Definition rebuild_params : list string :=
  ["components"; "artifact_components"; "t_start"; "t_stop";
   "apply_mean_filter"; "mlow"; "mhigh"; "apply_component_filter"; "chigh";
   "apply_masked_mean"; "filter_method"; "fps"; "include_noise"].

(** Lines 373-381: which components to leave out.  (The source adds the
    noise labels to the override array in place; what the caller sees of
    that array afterwards is outside the model.) *)
Definition resolve_exclusion (c : components) (artifact_components : exclusion_arg)
    (include_noise : bool) : outcome (list Z) :=
  match artifact_components with
  | ArgNone => getitem "artifact_components" (Ica.artifact_components c)
  | ArgSentinel => Ok (zeros (n_components c))
  | ArgArray a =>
      match negb include_noise, noise_components c with
      | true, Some noise =>
          a' ← iadd a (map b2z noise); Ok (clamp_to_one a')
      | _, _ => Ok a
      end
  end.

(** [eig_vec[:, j].size] *)
Definition column_size (a : arr2 Q) (j : nat) : outcome nat :=
  match columns a !! j with
  | Some col => Ok (length col)
  | None => Raise IndexError
  end.

(** Lines 405-412: the low-pass filter of the time courses, row by row of
    [eig_mix.T]. *)
Definition filter_timecourses `{Collaborators} (eig_mix : arr2 Q) (chigh : Q)
    : outcome (arr2 Q) :=
  lpf ← mapM (λ tc, broadcast_to (nrows eig_mix)
                       (butterworth tc None None (Some chigh)))
             (columns eig_mix);
  Ok (Arr2 (nrows eig_mix) lpf).

(** [target[:, mask] = col[:, None]] on a zero array shaped as the data. *)
Definition mean_on_mask (rows width : nat) (mask : list bool) (col : vec)
    : outcome (list vec) :=
  if negb (Nat.eqb (length mask) width) then Raise IndexError
  else
    col' ← broadcast_to rows col;
    Ok (map (λ m, map (λ b : bool, if b then m else 0%Q) mask) col').

Definition iadd_rows (data extra : list vec) : list vec :=
  zip_with (zip_with Qplus) data extra.

(** [data.reshape((t, x, y))], where a first dimension of [-1] is inferred. *)
Definition reshape3 (flat : vec) (t : Z) (x y : nat) : outcome movie :=
  if (t =? -1)%Z then
    if Nat.eqb (x * y) 0 then Raise ValueError
    else if Nat.eqb (length flat mod (x * y)) 0
         then Ok (Movie (length flat / (x * y), x, y) flat)
         else Raise ValueError
  else if (t <? 0)%Z then Raise ValueError
  else if Nat.eqb (Z.to_nat t * x * y) (length flat)
       then Ok (Movie (Z.to_nat t, x, y) flat)
       else Raise ValueError.

(** One row of [reconstructed[maskind] = data.swapaxes(0, 1)], seen after
    the axes are swapped back: the values land on the active positions. *)
Definition scatter (size : nat) (indices : list nat) (values : vec) : vec :=
  fold_left (λ acc iv, <[iv.1 := iv.2]> acc) (zip indices values) (replicate size 0%Q).

Definition unmask (data : list vec) (maskind : list nat) (t : Z) (x y : nat)
    : outcome movie :=
  if (t <? 0)%Z then Raise ValueError
  else if negb (forallb (λ i, Nat.ltb i (x * y)) maskind) then Raise IndexError
  else
    data' ← broadcast_to (Z.to_nat t) data;
    Ok (Movie (Z.to_nat t, x, y) (concat (map (scatter (x * y) maskind) data'))).

Definition rebuild `{Collaborators} (c : components)
    (artifact_components : exclusion_arg) (kw : rebuild_kwargs) : outcome movie :=
  let eig_vec := Ica.eig_vec c in
  let roimask := Ica.roimask c in
  let mean := Ica.mean c in
  let '(t, x, y) := shape c in
  l ← column_size eig_vec 0;
  artifact_components ← resolve_exclusion c artifact_components (include_noise kw);
  let reconstruct_indices := where_ (Z.eqb 0) artifact_components in
  if Nat.eqb (length reconstruct_indices) 0 then
    let data_r := zeros3 (t, x, y) in
    Ok (slice_movie data_r (t_start kw) (t_stop kw))
  else
    maskind ←
      match roimask with
      | None => _ ← assert (Nat.eqb l (x * y)); Ok None
      | Some flat =>
          let maskind := where_ (Z.eqb 1) flat in
          _ ← assert (Nat.eqb l (length maskind)); Ok (Some maskind)
      end;
    eig_mix ←
      (if apply_component_filter kw
       then lpf ← filter_timecourses (Ica.eig_mix c) (chigh kw); Ok (Some lpf)
       else Ok None);
    let t_start := default 0%Z (t_start kw) in
    t_stop ←
      match t_stop kw with
      | Some stop => Ok stop
      | None => m ← local "eig_mix" eig_mix; Ok (Z.of_nat (nrows m))
      end;
    let t := (t_stop - t_start)%Z in
    eig_mix ← local "eig_mix" eig_mix;
    v_sel ← select_columns eig_vec reconstruct_indices;
    m_sel ← select_columns eig_mix reconstruct_indices;
    let data_r := dot_T v_sel (slice_rows m_sel (Some t_start) (Some t_stop)) in
    data_r ←
      (if apply_masked_mean kw then
         masks ← getitem "masks" (Ica.masks c);
         masks ← match masks with Some m => Ok m | None => Raise AssertionError end;
         k_sel ← select_columns masks reconstruct_indices;
         let combined_mask := any_axis1 k_sel in
         mean_used ←
           (if apply_mean_filter kw
            then filter_mean mean (filter_method kw) (fps kw) (mlow kw) (mhigh kw)
            else Ok mean);
         mean_to_add ← mean_on_mask (length data_r) (nrows v_sel) combined_mask
                         (slice mean_used (Some t_start) (Some t_stop));
         Ok (iadd_rows data_r mean_to_add)
       else
         mean_used ←
           (if apply_mean_filter kw
            then filter_mean mean (filter_method kw) (fps kw) (mlow kw) (mhigh kw)
            else Ok mean);
         iadd_column data_r (slice mean_used (Some t_start) (Some t_stop)));
    match maskind with
    | None => reshape3 (concat data_r) t x y
    | Some maskind => unmask data_r maskind t x y
    end.

(** ** [project] (lines 16-299) *)

(** What one run of the solver and of the classifier yields. *)
Record decomposition : Type := Decomposition {
  d_eig_vec : arr2 Q;
  d_eig_mix : arr2 Q;
  d_noise : list bool;
  d_cutoff : Q
}.

(** [noise.sum()] *)
Definition noise_sum (noise : list bool) : nat := length (List.filter id noise).

(** [(1 - noise.sum() / noise.size) * 100]: not a number when there is no
    component, and then every comparison with it is false. *)
Definition p_signal (noise : list bool) : option Q :=
  if Nat.eqb (length noise) 0 then None
  else Some ((1 - inject_Z (Z.of_nat (noise_sum noise))
                  / inject_Z (Z.of_nat (length noise))) * 100)%Q.

Definition below (p : option Q) (bound : Q) : bool :=
  match p with
  | Some q => Qltb q bound
  | None => false
  end.

(** *** The adaptive component search (lines 137-176) *)

Inductive iteration : Type :=
  | Break (d : decomposition)
  | Grow (n_components increased_cutoff : nat).

(** One pass through the body of [while True]. *)
Definition search_iteration `{Collaborators} (vector u : arr2 Q)
    (shape0 max_iter n_components increased_cutoff : nat) : outcome iteration :=
  let w_init := block u n_components in
  '(eig_vec, eig_mix) ← fast_ica n_components max_iter (Some w_init) false vector;
  let '(noise, cutoff) := sort_noise (columns eig_mix) in
  let d := Decomposition eig_vec eig_mix noise cutoff in
  let p_signal := p_signal noise in
  if Nat.eqb (length noise) shape0 then Ok (Break d)
  else if below p_signal 75 then Ok (Break d)
  else if Nat.leb shape0 n_components then Ok (Break d)
  else
    let n_components := n_components + n_components / 2 in
    let increased_cutoff := increased_cutoff + 1 in
    let n_components :=
      if Nat.ltb shape0 n_components then shape0 else n_components in
    Ok (Grow n_components increased_cutoff).

(** The loop, run for at most [fuel] passes. *)
Fixpoint search `{Collaborators} (fuel : nat) (vector u : arr2 Q)
    (shape0 max_iter n_components increased_cutoff : nat)
    : outcome (decomposition * nat * nat) :=
  match fuel with
  | 0 => OutOfFuel
  | S fuel' =>
      r ← search_iteration vector u shape0 max_iter n_components increased_cutoff;
      match r with
      | Break d => Ok (d, n_components, increased_cutoff)
      | Grow n_components' increased_cutoff' =>
          search fuel' vector u shape0 max_iter n_components' increased_cutoff'
      end
  end.

(** *** The post-hoc crop (lines 181-202) *)

(** Python's [int] of a float: truncation toward zero. *)
Definition int (q : Q) : Z := (Qnum q ÷ Z.pos (Qden q))%Z.

(** [int((noise.size - noise.sum()) * 1.25)] *)
Definition reduced_n_components (noise : list bool) : nat :=
  Z.to_nat (int (inject_Z (Z.of_nat (length noise) - Z.of_nat (noise_sum noise))
                 * (125 # 100))%Q).

Definition crop (d : decomposition) (lag1_full : vec) (n_components : nat)
    : outcome (decomposition * vec * nat) :=
  let reduced_n_components := reduced_n_components (d_noise d) in
  if Nat.ltb reduced_n_components n_components then
    let ev_sort := argsort (map Np.var (columns (d_eig_mix d))) in
    eig_vec ← reorder_columns (d_eig_vec d) ev_sort;
    eig_mix ← reorder_columns (d_eig_mix d) ev_sort;
    noise ← reorder (d_noise d) ev_sort;
    let eig_vec := take_columns eig_vec reduced_n_components in
    let eig_mix := take_columns eig_mix reduced_n_components in
    let n_components := reduced_n_components in
    let noise := take reduced_n_components noise in
    lag1_full ← reorder lag1_full ev_sort;
    Ok (Decomposition eig_vec eig_mix noise (d_cutoff d), lag1_full, n_components)
  else Ok (d, lag1_full, n_components).

(** *** The fixed-count normalizer (lines 228-247) *)

(** The body of [for i in range(n_components)]. *)
Definition fix_sign (st : list vec * list vec * list Z) (i : nat)
    : outcome (list vec * list vec * list Z) :=
  let '(eig_vec, eig_mix, flipped) := st in
  col ← match eig_vec !! i with Some col => Ok col | None => Raise IndexError end;
  max_idx ← argmax_abs col;
  if Qltb (nth max_idx col 0%Q) 0 then
    mix ← match eig_mix !! i with Some mix => Ok mix | None => Raise IndexError end;
    Ok (<[i := negate col]> eig_vec, <[i := negate mix]> eig_mix, <[i := (-1)%Z]> flipped)
  else Ok st.

Fixpoint for_range {St} (body : St → nat → outcome St) (st : St) (i n : nat)
    : outcome St :=
  match n with
  | 0 => Ok st
  | S n' => st' ← body st i; for_range body st' (S i) n'
  end.

Definition normalize (eig_vec eig_mix : arr2 Q) (n_components : nat)
    : outcome (arr2 Q * arr2 Q * list Z) :=
  let ev_sort := argsort (map Np.var (columns eig_mix)) in
  eig_vec ← reorder_columns eig_vec ev_sort;
  eig_mix ← reorder_columns eig_mix ev_sort;
  let flipped := replicate n_components 1%Z in
  '(vs, ms, flipped) ←
    for_range fix_sign (columns eig_vec, columns eig_mix, flipped) 0 n_components;
  Ok (Arr2 (nrows eig_vec) vs, Arr2 (nrows eig_mix) ms, flipped).

(** *** The two decomposition paths *)

(** [try: f(False) except ValueError: f(True)] *)
Definition retry_on_value_error {A} (f : bool → outcome A) : outcome A :=
  match f false with
  | Raise ValueError => f true
  | r => r
  end.

(** What a path leaves behind for the assembly of the dictionary. *)
Record path_result : Type := PathResult {
  p_eig_vec : arr2 Q;
  p_eig_mix : arr2 Q;
  p_noise : list bool;
  p_cutoff : Q;
  p_svd_eigval : option loc;
  p_increased_cutoff : option nat;
  p_lag1_full : option vec;
  p_svd_multiplier : option nat;
  p_svd_cutoff : option nat;
  p_flipped : option (list Z)
}.

(** Lines 116-207.  The spectrum is stored at a fresh location [ev];
    [components['svd_eigval'] = ev] and the argument of the estimator are
    that same array. *)
Definition adaptive_path `{Collaborators} (fuel : nat) (h : gmap loc vec)
    (vector : arr2 Q) (shape0 svd_multiplier max_iter : nat)
    : outcome (path_result * gmap loc vec) :=
  '(u, spectrum) ← retry_on_value_error (λ gesvd, svd gesvd vector);
  let ev : loc := fresh (dom h) in
  let h := <[ev := spectrum]> h in
  let '(h, cross_1) := approximate_svd_linearity_transition ev h in
  cross_1 ← cross_1;
  let n_components := cross_1 * svd_multiplier in
  '(d, n_components, increased_cutoff) ←
    search fuel vector u shape0 max_iter n_components 0;
  let lag1_full := lag_n_autocorr (columns (d_eig_mix d)) 1 in
  let svd_cutoff := n_components in
  '(d, lag1_full, n_components) ← crop d lag1_full n_components;
  Ok (PathResult (d_eig_vec d) (d_eig_mix d) (d_noise d) (d_cutoff d)
        (Some ev) (Some increased_cutoff) (Some lag1_full)
        (Some svd_multiplier) (Some svd_cutoff) None, h).

(** Lines 209-247. *)
Definition fixed_path `{Collaborators} (vector : arr2 Q)
    (n_components max_iter : nat) : outcome path_result :=
  '(eig_vec, eig_mix) ←
    retry_on_value_error (λ float64, fast_ica n_components max_iter None float64 vector);
  '(eig_vec, eig_mix, flipped) ← normalize eig_vec eig_mix n_components;
  let '(noise, cutoff) := sort_noise (columns eig_mix) in
  Ok (PathResult eig_vec eig_mix noise cutoff None None None None None (Some flipped)).

(** *** Residual accounting (lines 259-285)

    [residual_arithmetic] stands for lines 266-278 (mean removal, absolute
    difference, axis means, scatter through the mask), applied to the
    mean-removed matrix and to what [rebuild] returned. *)

Inductive printed : Type :=
  | Text (line : string)
  | TextExn (prefix : string) (e : exn).

Definition residual_computation `{Collaborators}
    (residual_arithmetic : arr2 Q → movie → outcome (vec * vec))
    (c : components) (vector : arr2 Q) : outcome (vec * vec) :=
  _ ← bind_keywords rebuild_params ["artifact_components"; "vector"];
  rebuilt ← rebuild c ArgSentinel rebuild_defaults;
  residual_arithmetic vector rebuilt.

Definition with_residuals (c : components) (r : vec * vec) : components :=
  Components (mean c) (roimask c) (shape c) (eig_vec c) (eig_mix c)
    (n_components c) (lag1 c) (noise_components c) (cutoff c)
    (artifact_components c) (masks c) (svd_eigval c) (increased_cutoff c)
    (lag1_full c) (svd_multiplier c) (svd_cutoff c) (flipped c)
    (Some r.1) (Some r.2) (project_meta c).

Definition with_project_meta (c : components) (n : nat) : components :=
  Components (mean c) (roimask c) (shape c) (eig_vec c) (eig_mix c)
    (n_components c) (lag1 c) (noise_components c) (cutoff c)
    (artifact_components c) (masks c) (svd_eigval c) (increased_cutoff c)
    (lag1_full c) (svd_multiplier c) (svd_cutoff c) (flipped c)
    (residuals_spatial c) (residuals_temporal c) (Some n).

(** [try: ... except Exception as e: print(...)] *)
Definition account_residuals `{Collaborators}
    (residual_arithmetic : arr2 Q → movie → outcome (vec * vec))
    (calc_residuals : bool) (c : components) (vector : arr2 Q)
    : outcome (components * list printed) :=
  if calc_residuals then
    match residual_computation residual_arithmetic c vector with
    | Ok r => Ok (with_residuals c r, [])
    | Raise e => Ok (c, [Text "Residual Calculation Failed!!"; TextExn tab e])
    | OutOfFuel => OutOfFuel
    end
  else Ok (c, []).

(** *** The entry point *)

(** Lines 92-103: the crop through the mask and the removal of the mean. *)
Definition prepare (vector : arr2 Q) (roimask : option (list Z))
    : outcome (arr2 Q * vec) :=
  vector ←
    match roimask with
    | None => Ok vector
    | Some flat =>
        _ ← assert (Nat.eqb (length flat) (nrows vector));
        let maskind := where_ (Z.eqb 1) flat in
        select_rows vector maskind
    end;
  let mean := map Np.mean (columns vector) in
  Ok (Arr2 (nrows vector)
           (zip_with (λ col m, map (λ v, (v - m)%Q) col) (columns vector) mean),
      mean).

(** Lines 249-257: the dictionary as it stands before the residuals. *)
Definition assemble `{Collaborators} (mean : vec) (roimask : option (list Z))
    (shape : nat * nat * nat) (r : path_result) : components :=
  Components mean roimask shape (p_eig_vec r) (p_eig_mix r)
    (ncols (p_eig_vec r)) (lag_n_autocorr (columns (p_eig_mix r)) 1)
    (Some (p_noise r)) (Some (p_cutoff r)) None None
    (p_svd_eigval r) (p_increased_cutoff r) (p_lag1_full r)
    (p_svd_multiplier r) (p_svd_cutoff r) (p_flipped r) None None None.

(** Everything up to line 257. *)
Definition decompose `{Collaborators} (fuel : nat) (h : gmap loc vec)
    (vector : arr2 Q) (shape : nat * nat * nat) (roimask : option (list Z))
    (n_components svd_multiplier : option nat) (max_iter : nat)
    : outcome (components * arr2 Q * gmap loc vec) :=
  '(vector, mean) ← prepare vector roimask;
  let svd_multiplier := default 5 svd_multiplier in
  '(r, h) ←
    match n_components with
    | None => adaptive_path fuel h vector shape.1.1 svd_multiplier max_iter
    | Some n_components =>
        r ← fixed_path vector n_components max_iter; Ok (r, h)
    end;
  Ok (assemble mean roimask shape r, vector, h).

Definition project `{Collaborators}
    (residual_arithmetic : arr2 Q → movie → outcome (vec * vec))
    (fuel : nat) (h : gmap loc vec)
    (vector : arr2 Q) (shape : nat * nat * nat) (roimask : option (list Z))
    (n_components svd_multiplier : option nat) (calc_residuals : bool)
    (max_iter : nat) : outcome (components * list printed * gmap loc vec) :=
  '(c, vector, h) ←
    decompose fuel h vector shape roimask n_components svd_multiplier max_iter;
  '(c, report) ← account_residuals residual_arithmetic calc_residuals c vector;
  Ok (with_project_meta c (Ica.n_components c), report, h).

(** ** [rebuild_mean_roi_timecourse] (lines 570-642)

    The region map is held by its row-major flattening; an entry is a
    label ([Some], a natural number) or not a number ([None]).  A time
    course is a list of values, each of which may be not a number. *)

(** Lines 597-611: the factors of the components that are used. *)
Definition roi_signal_factors (c : components)
    (filter invert_artifact include_noise : bool) : outcome (arr2 Q * arr2 Q) :=
  match filter, Ica.artifact_components c with
  | true, Some stored =>
      artifact_components ←
        match negb include_noise, noise_components c with
        | true, Some noise =>
            a' ← iadd stored (map b2z noise); Ok (clamp_to_one a')
        | _, _ => Ok stored
        end;
      let signal_indices :=
        if invert_artifact then where_ (Z.eqb 1) artifact_components
        else where_ (Z.eqb 0) artifact_components in
      eig_vec ← select_columns (eig_vec c) signal_indices;
      eig_mix ← select_columns (eig_mix c) signal_indices;
      Ok (eig_vec, eig_mix)
  | _, _ => Ok (eig_vec c, eig_mix c)
  end.

(** [np.unique(mask[~np.isnan(mask)]).astype('uint16')] *)
Definition roi_labels (mask : list (option nat)) : list nat :=
  map (λ label, label mod 2 ^ 16) (merge_sort Nat.le (remove_dups (omap id mask))).

(** [v.mean()], not a number for an empty array. *)
Definition mean_or_nan (v : vec) : option Q :=
  if Nat.eqb (length v) 0 then None else Some (Np.mean v).

(** [np.dot(eig_vec[domain_index, :], eig_mix.T).mean(axis=0)] *)
Definition roi_trace (eig_vec eig_mix : arr2 Q) (domain_index : list nat)
    : outcome (list (option Q)) :=
  if negb (forallb (λ i, Nat.ltb i (nrows eig_vec)) domain_index) then Raise IndexError
  else
    rows ← select_rows eig_vec domain_index;
    if Nat.eqb (ncols rows) (ncols eig_mix)
    then Ok (map mean_or_nan (dot_T rows eig_mix))
    else Raise ValueError.

Fixpoint for_each {St A} (body : St → A → outcome St) (st : St) (l : list A)
    : outcome St :=
  match l with
  | [] => Ok st
  | a :: l' => st' ← body st a; for_each body st' l'
  end.

(** The body of [for i in indices]. *)
Definition roi_pass (eig_vec eig_mix : arr2 Q) (maskind : option (list nat))
    (mask : list (option nat)) (include_zero : bool)
    (timecourses : list (list (option Q))) (i : nat)
    : outcome (list (list (option Q))) :=
  if Nat.eqb i 0 && negb include_zero then Ok timecourses
  else
    seen ←
      match maskind with
      | Some maskind => take_indices mask maskind
      | None => Ok mask
      end;
    let domain_index := where_ (λ v, bool_decide (v = Some i)) seen in
    trace ← roi_trace eig_vec eig_mix domain_index;
    Ok (<[i := trace]> timecourses).

Definition rebuild_mean_roi_timecourse (c : components) (mask : list (option nat))
    (include_zero filter invert_artifact include_noise : bool)
    : outcome (list (list (option Q))) :=
  '(eig_vec, eig_mix) ← roi_signal_factors c filter invert_artifact include_noise;
  let maskind := (λ flat, where_ (Z.eqb 1) flat) <$> roimask c in
  let indices := roi_labels mask in
  n_indices ←
    match indices with
    | [] => Raise ValueError
    | _ => Ok (max_list indices + 1)
    end;
  let timecourses := replicate n_indices (replicate (nrows eig_mix) None) in
  timecourses ←
    for_each (roi_pass eig_vec eig_mix maskind mask include_zero) timecourses indices;
  Ok (if include_zero then timecourses else drop 1 timecourses).

(** ** [rebuild_eigenbrain] (lines 645-712)

    A 2-D mask is held by its shape [(h, w)] and its row-major flattening
    of [h * w] entries, a rebuilt map by its shape and its entries, each a
    value or not a number ([None], the [np.NAN] of NumPy 1). *)

Record mask2 : Type := Mask2 {
  mask_shape : nat * nat;
  mask_flat : list Z
}.

Record map2 : Type := Map2 {
  map_shape : nat * nat;
  map_flat : list (option Q)
}.

(** [a[index]] for a Python integer: a negative index counts from the end. *)
Definition getitem_int {A} (a : list A) (index : Z) : outcome A :=
  let n := Z.of_nat (length a) in
  let i := if (index <? 0)%Z then (index + n)%Z else index in
  if (i <? 0)%Z then Raise IndexError
  else match a !! Z.to_nat i with
       | Some v => Ok v
       | None => Raise IndexError
       end.

(** Values written at the given flat positions, one after the other. *)
Definition put (target : list (option Q)) (indices : list nat) (values : vec)
    : list (option Q) :=
  fold_left (λ acc iv, <[iv.1 := Some iv.2]> acc) (zip indices values) target.

(** [target.flat[indices] = values]: the values are taken in turn, from
    the first again when they run out; nothing is written when there is no
    value. *)
Definition flat_assign (target : list (option Q)) (indices : list nat) (values : vec)
    : list (option Q) :=
  if Nat.eqb (length values) 0 then target
  else put target indices
           (map (λ r, nth (r mod length values) values 0%Q)
                (seq 0 (length indices))).

(** Lines 700-712: one component. *)
Definition rebuild_eigenbrain_one (eig_vec : arr2 Q) (index : option Z)
    (roimask : option mask2) (eigb_shape : option (nat * nat)) : outcome map2 :=
  _ ← assert (bool_decide (is_Some roimask) || bool_decide (is_Some eigb_shape));
  index ← match index with Some index => Ok index | None => Raise AssertionError end;
  match roimask with
  | None =>
      eigenbrain ← getitem_int (columns eig_vec) index;
      match eigb_shape with
      | Some (h, w) =>
          if Nat.eqb (h * w) (length eigenbrain)
          then Ok (Map2 (h, w) (map Some eigenbrain))
          else Raise ValueError
      | None => Raise AssertionError
      end
  | Some roimask =>
      let maskind := where_ (Z.eqb 1) (mask_flat roimask) in
      let '(h, w) := mask_shape roimask in
      let eigenbrain := replicate (h * w) None in
      component ← getitem_int (columns eig_vec) index;
      Ok (Map2 (h, w) (flat_assign eigenbrain maskind component))
  end.

(** Lines 680-697: all components.  Without a mask the third dimension of
    the reshape is [eig_vec[1]], a row of the array and not a number. *)
Definition rebuild_eigenbrain_bulk (eig_vec : arr2 Q)
    (roimask : option mask2) (eigb_shape : option (nat * nat))
    : outcome (list map2) :=
  _ ← assert (bool_decide (is_Some roimask) || bool_decide (is_Some eigb_shape));
  match roimask with
  | None => if Nat.ltb 1 (nrows eig_vec) then Raise TypeError else Raise IndexError
  | Some roimask =>
      let maskind := where_ (Z.eqb 1) (mask_flat roimask) in
      let '(h, w) := mask_shape roimask in
      if negb (Nat.eqb (nrows eig_vec) (length maskind) || Nat.eqb (nrows eig_vec) 1)
      then Raise ValueError
      else
        mapM (λ component,
                values ← broadcast_to (length maskind) component;
                Ok (Map2 (h, w) (put (replicate (h * w) None) maskind values)))
             (columns eig_vec)
  end.

(** The two results of [rebuild_eigenbrain]. *)
Inductive eigenbrains : Type :=
  | One (eigenbrain : map2)
  | Stack (eigenbrains : list map2).

Definition rebuild_eigenbrain (eig_vec : arr2 Q) (index : option Z)
    (roimask : option mask2) (eigb_shape : option (nat * nat)) (bulk : bool)
    : outcome eigenbrains :=
  if bulk then ms ← rebuild_eigenbrain_bulk eig_vec roimask eigb_shape; Ok (Stack ms)
  else m ← rebuild_eigenbrain_one eig_vec index roimask eigb_shape; Ok (One m).

End Ica.

Export Ica.

(** ** Vocabulary of the properties *)

(** The five policies of the dispatcher. *)
Definition supported : list string :=
  ["butterworth"; "butterworth_lowpass"; "butterworth_bandpass"; "wavelet"; "constant"].

(** The spectrum after [eig_val -= eig_val.min()]. *)
Definition shifted (a : vec) : vec :=
  match Np.min a with
  | Ok m => map (λ v, (v - m)%Q) a
  | _ => []
  end.

(** The cumulative curve of the normalized spectrum, the fitted parabola
    at every index, and the indices at which the curve lies strictly
    above the fit. *)
Definition energy_curve (s : vec) : vec :=
  cumsum (map (λ v, (v / Np.sum s)%Q) s).

Definition fitted `{Collaborators} (s : vec) : vec :=
  let x := arange (length s) in
  map (polyval (polyfit x (energy_curve s) 2)) x.

Definition exceeds `{Collaborators} (s : vec) (i : nat) : Prop :=
  ∃ a b, energy_curve s !! i = Some a ∧ fitted s !! i = Some b ∧ (b < a)%Q.




(** ** Stand-ins for the collaborators

    Deterministic collaborators on which the definitions above can be run:
    an exact least-squares parabola for [numpy.polyfit], a solver that
    yields constant factors of the requested shape, a classifier that
    labels every time course as signal, a fixed four-point spectrum, and
    filters that leave the signal as it is. *)

Module StandIn.

Definition dotp (a b : vec) : Q := Np.sum (zip_with Qmult a b).

Definition det3 (a b c d e f g h i : Q) : Q :=
  (a * (e * i - f * h) - b * (d * i - f * g) + c * (d * h - e * g))%Q.

(** The parabola through the normal equations, by Cramer's rule. *)
Definition fit_parabola (x y : vec) (deg : nat) : vec :=
  let x0 := map (λ _, 1%Q) x in
  let x2 := zip_with Qmult x x in
  let s0 := dotp x0 x0 in
  let s1 := dotp x x0 in
  let s2 := dotp x x in
  let s3 := dotp x2 x in
  let s4 := dotp x2 x2 in
  let t0 := dotp y x0 in
  let t1 := dotp y x in
  let t2 := dotp y x2 in
  let d := det3 s4 s3 s2 s3 s2 s1 s2 s1 s0 in
  [Qred (det3 t2 s3 s2 t1 s2 s1 t0 s1 s0 / d);
   Qred (det3 s4 t2 s2 s3 t1 s1 s2 t0 s0 / d);
   Qred (det3 s4 s3 t2 s3 s2 t1 s2 s1 t0 / d)].

Definition constant_factors (n_components : nat) (vector : arr2 Q) : arr2 Q * arr2 Q :=
  (Arr2 (nrows vector) (replicate n_components (replicate (nrows vector) 1%Q)),
   Arr2 (ncols vector) (replicate n_components (replicate (ncols vector) 1%Q))).

#[local] Instance collaborators : Collaborators := {|
  svd := λ _ vector, Ok (vector, [5; 4; 2; 1]%Q);
  fast_ica := λ n_components _ _ _ vector, Ok (constant_factors n_components vector);
  sort_noise := λ timecourses, (map (λ _, false) timecourses, 0%Q);
  lag_n_autocorr := λ timecourses _, map (λ _, 0%Q) timecourses;
  polyfit := fit_parabola;
  butterworth := λ signal _ _ _, signal;
  wavelet_noise_filter := λ signal _ _, signal
|}.

(** A movie of four frames of two by three pixels, as the matrix of its
    six pixels by four frames, and what [prepare] makes of it. *)
Definition vector : arr2 Q :=
  Arr2 6 [[1; -1; 2; 0; 1; 3]; [2; 0; 0; 1; 4; -1];
          [0; 1; 1; 1; 2; 1]; [3; 2; -2; 0; 1; 2]]%Q.

Definition centered : arr2 Q :=
  Eval vm_compute in
    match prepare vector None with Ok (X, _) => X | _ => vector end.

Definition frame_means : vec :=
  Eval vm_compute in
    match prepare vector None with Ok (_, mean) => mean | _ => [] end.

Definition no_arithmetic (v : arr2 Q) (m : movie) : outcome (vec * vec) :=
  Raise ValueError.

(** A one-component decomposition of a four-frame movie of one by two
    pixels, as [project] assembles it. *)
Definition one_component : components :=
  Components [1; 2; 3; 4]%Q None (4, 1, 2)
    (Arr2 2 [[1; 1]%Q]) (Arr2 4 [[1; 1; 1; 1]%Q]) 1 [0%Q]
    (Some [false]) (Some 0%Q) None None None None None None None None None None None.


(** Two components, the second one labelled noise, none marked as an
    artifact by the curation. *)
Definition curated : components :=
  Components [1; 2; 3; 4]%Q None (4, 1, 2)
    (Arr2 2 [[1; 1]; [1; -1]]%Q) (Arr2 4 [[1; 1; 1; 1]; [1; 0; 1; 0]]%Q) 2 [0; 0]%Q
    (Some [false; true]) (Some 0%Q) (Some [0; 0]%Z)
    None None None None None None None None None None.

(** Four components, two of them labelled noise, with time courses of
    variance 0, 1, 4 and 9/4. *)
Definition over_grown : decomposition :=
  Decomposition
    (Arr2 2 [[1; 0]; [0; 1]; [1; 1]; [1; -1]]%Q)
    (Arr2 2 [[1; 1]; [0; 2]; [0; 4]; [3; 0]]%Q)
    [false; true; false; true] 0%Q.


(** Two components over three locations and two frames; the second has
    the larger variance and its dominant loading is negative. *)
Definition two_factors : arr2 Q * arr2 Q :=
  (Arr2 3 [[2; 1; 0]; [1; -3; 2]]%Q, Arr2 2 [[1; 0]; [3; -3]]%Q).

Definition with_window (kw : rebuild_kwargs) (start stop : option Z) : rebuild_kwargs :=
  RebuildKwargs start stop (apply_mean_filter kw) (mlow kw) (mhigh kw)
    (apply_component_filter kw) (chigh kw) (apply_masked_mean kw)
    (filter_method kw) (fps kw) (include_noise kw).

Definition without_noise (kw : rebuild_kwargs) : rebuild_kwargs :=
  RebuildKwargs (t_start kw) (t_stop kw) (apply_mean_filter kw) (mlow kw) (mhigh kw)
    (apply_component_filter kw) (chigh kw) (apply_masked_mean kw)
    (filter_method kw) (fps kw) false.

Definition unfiltered : rebuild_kwargs :=
  RebuildKwargs None None false (1 # 2) 1 false 1 false "butterworth_highpass" (15 # 2) true.

(** The options of a plain reconstruction: component filter on, mean
    filter off, no masked mean. *)
Definition through_component_filter : rebuild_kwargs :=
  RebuildKwargs None None false (1 # 2) 1 true 1 false "butterworth_highpass" (15 # 2) true.

(** A mask of three pixels on a frame of two by three. *)
Definition region : mask2 := Mask2 (2, 3) [1; 0; 1; 1; 0; 0]%Z.

(** Two components over the three pixels of [region]. *)
Definition maps : arr2 Q := Arr2 3 [[1; 2; 3]; [4; 5; 6]]%Q.

(** A region map of the one-by-two frame: labels 0 and 2. *)
Definition regions : list (option nat) := [Some 0; Some 2].

(** [curated] after a curation that marks the noise component as an
    artifact. *)
Definition flagged : components :=
  Components [1; 2; 3; 4]%Q None (4, 1, 2)
    (Arr2 2 [[1; 1]; [1; -1]]%Q) (Arr2 4 [[1; 1; 1; 1]; [1; 0; 1; 0]]%Q) 2 [0; 0]%Q
    (Some [false; true]) (Some 0%Q) (Some [0; 1]%Z)
    None None None None None None None None None None.

End StandIn.

(** * Properties *)

(** ** Slices and elementary array facts *)

Section ArrayFacts.

Lemma slice_bound_le len b : slice_bound len b ≤ len.
Proof. unfold slice_bound. destruct (b <? 0)%Z eqn:E; lia. Qed.

Lemma slice_stop_le len stop : slice_stop len stop ≤ len.
Proof. destruct stop; simpl; [apply slice_bound_le | lia]. Qed.

Lemma slice_len_inside (t : nat) (s e : Z) :
  (0 ≤ s)%Z → (s ≤ e)%Z → (e ≤ Z.of_nat t)%Z →
  Z.of_nat (slice_len t (Some s) (Some e)) = (e - s)%Z.
Proof.
  intros Hs Hse He. unfold slice_len, slice_stop, slice_start, slice_bound.
  destruct (s <? 0)%Z eqn:E1; [lia|]. destruct (e <? 0)%Z eqn:E2; lia.
Qed.


Lemma where_from_nil {A} (p : A → bool) i a :
  where_from p i a = [] ↔ Forall (λ v, p v = false) a.
Proof.
  revert i. induction a as [|v a IH]; intros i; simpl.
  - split; [constructor | done].
  - destruct (p v) eqn:E.
    + split; [done | inversion 1; congruence].
    + rewrite IH. split; [by constructor | by inversion 1].
Qed.

Lemma where_from_length_all {A} (p : A → bool) i a :
  Forall (λ v, p v = true) a → length (where_from p i a) = length a.
Proof.
  intros Ha. revert i. induction Ha as [|v a Hv _ IH]; intros i; simpl; [done|].
  rewrite Hv. simpl. by rewrite IH.
Qed.

Lemma broadcast_to_same {A} n (v : list A) : length v = n → broadcast_to n v = Ok v.
Proof. intros <-. unfold broadcast_to. by rewrite Nat.eqb_refl. Qed.

End ArrayFacts.

(** ** The mean-signal filter dispatcher *)

Section MeanFilter.

Context `{Collaborators}.


(** X2.  For every name that is not one of the five, [filter_mean] raises
    the "not supported" exception that quotes the name. *)
Lemma filter_mean_unsupported mean filter_method fps low_cutoff high_cutoff :
  filter_method ∉ supported →
  filter_mean mean filter_method fps low_cutoff high_cutoff
  = Raise (Exception (unsupported filter_method)).
Proof.
  intros Hnot. unfold filter_mean.
  repeat match goal with
  | |- context [String.eqb filter_method ?s] =>
      destruct (String.eqb_spec filter_method s) as [->|_];
      [exfalso; apply Hnot; unfold supported; set_solver|]
  end.
  reflexivity.
Qed.

(** X3.  The policy 'constant' returns, for a time course of any length,
    as many values as the time course has, each equal to its mean. *)
Lemma filter_mean_constant mean fps low_cutoff high_cutoff :
  ∃ filtered,
    filter_mean mean "constant" fps low_cutoff high_cutoff = Ok filtered
    ∧ length filtered = length mean
    ∧ Forall (λ v, (v == Np.mean mean)%Q) filtered.
Proof.
  eexists. split; [reflexivity|]. unfold zeros_like. split.
  - by rewrite !length_map.
  - rewrite Forall_map, Forall_map. apply Forall_true. intros _. simpl. ring.
Qed.

(** C8.  [rebuild] names 'butterworth_highpass' as its default mean-filter
    policy and lists it in its docstring, but the dispatcher does not know
    that name: on every time course it raises the "not supported"
    exception for it, as it does for an unknown name. *)
Theorem filter_mean_rejects_rebuild_default mean fps low_cutoff high_cutoff :
  filter_method rebuild_defaults = "butterworth_highpass"
  ∧ filter_mean mean (filter_method rebuild_defaults) fps low_cutoff high_cutoff
    = Raise (Exception (unsupported "butterworth_highpass")).
Proof. split; reflexivity. Qed.

End MeanFilter.

(** ** The reconstruction engine *)

Section Rebuild.

Context `{Collaborators}.


Lemma resolve_exclusion_sentinel c include_noise :
  resolve_exclusion c ArgSentinel include_noise = Ok (zeros (n_components c)).
Proof. reflexivity. Qed.






(** Without the component filter the local name [eig_mix] is never bound:
    [rebuild] can only return through the empty selection. *)
Lemma rebuild_unfiltered_returns_only_empty c artifact_components kw m :
  apply_component_filter kw = false →
  rebuild c artifact_components kw = Ok m →
  ∃ excl, resolve_exclusion c artifact_components (include_noise kw) = Ok excl
          ∧ where_ (Z.eqb 0) excl = [].
Proof.
  intros Hfilter. unfold rebuild. destruct (shape c) as [[t x] y].
  destruct (column_size (eig_vec c) 0) as [l| |]; simpl; [|done..].
  destruct (resolve_exclusion c artifact_components (include_noise kw))
    as [excl| |]; simpl; [|done..].
  destruct (where_ (Z.eqb 0) excl) as [|i rest] eqn:Hw; simpl; [by eauto|].
  rewrite Hfilter.
  destruct (roimask c) as [flat|]; simpl.
  - destruct (assert (l =? length (where_ (Z.eqb 1) flat))) as [[]| |]; simpl;
      [|done..].
    destruct (t_stop kw); simpl; done.
  - destruct (assert (l =? x * y)) as [[]| |]; simpl; [|done..].
    destruct (t_stop kw); simpl; done.
Qed.

Lemma rebuild_never_out_of_fuel_unfiltered c artifact_components kw :
  apply_component_filter kw = false →
  rebuild c artifact_components kw ≠ OutOfFuel.
Proof.
  intros Hfilter. unfold rebuild. destruct (shape c) as [[t x] y].
  unfold column_size. destruct (columns (eig_vec c) !! 0); simpl; [|done].
  assert (resolve_exclusion c artifact_components (include_noise kw) ≠ OutOfFuel)
    as Hres.
  { destruct artifact_components as [| |a]; simpl.
    - by destruct (Ica.artifact_components c).
    - done.
    - destruct (include_noise kw), (noise_components c) as [noise|]; simpl;
        try done.
      unfold iadd, broadcast_to. destruct (_ =? _); simpl; [done|].
      by destruct (map b2z noise) as [|? []]. }
  destruct (resolve_exclusion c artifact_components (include_noise kw))
    as [excl| |]; simpl; [|done..].
  destruct (where_ (Z.eqb 0) excl) as [|i rest] eqn:Hw; simpl; [done|].
  rewrite Hfilter.
  destruct (roimask c) as [flat|]; simpl.
  - unfold assert. destruct (_ =? _); simpl; [|done].
    destruct (t_stop kw); simpl; done.
  - unfold assert. destruct (_ =? _); simpl; [|done].
    destruct (t_stop kw); simpl; done.
Qed.

(** C1.  With every component included (the 'none' sentinel) and the
    component filter off, [rebuild] does not return the reconstruction: for
    a dictionary with at least one component the call raises (the local
    name [eig_mix] is bound only inside the component-filter branch), so the
    round trip of the decomposition cannot be taken. *)
Theorem rebuild_include_all_unfiltered_raises c kw :
  apply_component_filter kw = false →
  0 < n_components c →
  raises (rebuild c ArgSentinel kw).
Proof.
  intros Hfilter Hn.
  destruct (rebuild c ArgSentinel kw) as [m|e|] eqn:Hr.
  - apply rebuild_unfiltered_returns_only_empty in Hr as (excl & Hres & Hw); [|done].
    simpl in Hres. injection Hres as <-.
    apply (f_equal length) in Hw. unfold where_ in Hw.
    rewrite where_from_length_all in Hw.
    + unfold zeros in Hw. rewrite length_replicate in Hw. simpl in Hw. lia.
    + unfold zeros. apply Forall_replicate. reflexivity.
  - by exists e.
  - by apply rebuild_never_out_of_fuel_unfiltered in Hr.
Qed.

End Rebuild.

Section RebuildRuns.

Import StandIn.
#[local] Existing Instance collaborators.



Lemma rebuild_include_all_unfiltered_raises_witness :
  raises (rebuild one_component ArgSentinel unfiltered).
Proof.
  apply rebuild_include_all_unfiltered_raises; [reflexivity | simpl; lia].
Defined.

Example rebuild_include_all_unfiltered_unbound :
  rebuild one_component ArgSentinel unfiltered = Raise (UnboundLocalError "eig_mix").
Proof. reflexivity. Qed.


End RebuildRuns.

(** ** The linearity-transition estimator *)

Section EstimatorFacts.

Context `{Collaborators}.

Lemma Qltb_lt (a b : Q) : Qltb a b = true ↔ (a < b)%Q.
Proof.
  unfold Qltb. rewrite negb_true_iff, <- not_true_iff_false, Qle_bool_iff.
  split; [apply Qnot_le_lt | apply Qlt_not_le].
Qed.

(** The head of [np.where(...)[0]] is the first position that passes. *)
Lemma where_from_head {A} (p : A → bool) k (l : list A) j rest :
  where_from p k l = j :: rest →
  ∃ i v, j = k + i ∧ l !! i = Some v ∧ p v = true
         ∧ ∀ i' v', i' < i → l !! i' = Some v' → p v' = false.
Proof.
  revert k. induction l as [|a l IH]; intros k; simpl; [done|].
  destruct (p a) eqn:Ha.
  - intros [= <- <-]. exists 0, a. repeat split; [lia|done|lia].
  - intros (i & v & -> & Hi & Hv & Hbefore)%IH.
    exists (S i), v. repeat split; [lia|done..|].
    intros [|i'] v' Hlt; simpl; [by intros [= <-] | apply Hbefore; lia].
Qed.

Lemma where_from_first {A} (p : A → bool) k (l : list A) i v :
  l !! i = Some v → p v = true →
  (∀ i' v', i' < i → l !! i' = Some v' → p v' = false) →
  ∃ rest, where_from p k l = (k + i) :: rest.
Proof.
  revert k i. induction l as [|a l IH]; intros k i; [done|].
  destruct i as [|i]; simpl.
  - intros [= ->] -> _. rewrite Nat.add_0_r. eauto.
  - intros Hi Hv Hbefore. rewrite (Hbefore 0 a) by (done || lia).
    destruct (IH (S k) i Hi Hv) as [rest ->].
    + intros i' v' Hlt. apply (Hbefore (S i')). lia.
    + exists rest. f_equal. lia.
Qed.

Lemma exceeds_lookup s i :
  exceeds s i ↔
  ∃ ab, zip (energy_curve s) (fitted s) !! i = Some ab ∧ Qltb ab.2 ab.1 = true.
Proof.
  unfold exceeds. split.
  - intros (a & b & Ha & Hb & Hlt). exists (a, b). split; [|by apply Qltb_lt].
    apply lookup_zip_with_Some. eauto.
  - intros ([a b] & (a' & b' & [= -> ->] & Ha & Hb)%lookup_zip_with_Some & Hlt).
    exists a', b'. repeat split; [done..|by apply Qltb_lt].
Qed.

Lemma transition_of_spec s i :
  transition_of s = Ok i ↔
  ¬ (Np.sum s == 0)%Q ∧ exceeds s i ∧ ∀ j, j < i → ¬ exceeds s j.
Proof.
  unfold transition_of. destruct (Qeq_bool (Np.sum s) 0) eqn:Hsum.
  { apply Qeq_bool_iff in Hsum. split; [done | by intros [? _]]. }
  assert (¬ (Np.sum s == 0)%Q) as Hne.
  { intros Hz. apply Qeq_bool_iff in Hz. congruence. }
  rewrite length_map. fold (energy_curve s). fold (fitted s).
  destruct (where_ _ _) as [|j rest] eqn:Hw.
  - split; [done|]. intros (_ & (ab & Hab & Hlt)%exceeds_lookup & _).
    apply where_from_nil in Hw. rewrite Forall_lookup in Hw.
    specialize (Hw _ _ Hab). simpl in Hw. congruence.
  - apply where_from_head in Hw as (i' & v & -> & Hi & Hv & Hbefore). simpl.
    assert (exceeds s i') as Hex by (apply exceeds_lookup; eauto).
    assert (∀ j, j < i' → ¬ exceeds s j) as Hmin.
    { intros j Hlt (ab & Hab & Hp)%exceeds_lookup.
      specialize (Hbefore _ _ Hlt Hab). simpl in Hbefore. congruence. }
    split.
    + intros [= <-]. done.
    + intros (_ & Hi2 & Hmin2). f_equal.
      destruct (Nat.lt_trichotomy i i') as [Hlt|[->|Hlt]]; [|done|].
      * by destruct (Hmin _ Hlt).
      * by destruct (Hmin2 _ Hlt).
Qed.


Lemma estimator_result (h : gmap loc vec) eig_val a :
  h !! eig_val = Some a → a ≠ [] →
  (approximate_svd_linearity_transition eig_val h).2 = transition_of (shifted a).
Proof.
  intros Ha Hne. unfold approximate_svd_linearity_transition, shifted. rewrite Ha.
  destruct a as [|v a]; [done|]. reflexivity.
Qed.

(** What the call leaves in the caller's array: the spectrum minus its
    minimum, and nothing else of the store is touched. *)
Lemma estimator_store (h : gmap loc vec) eig_val a :
  h !! eig_val = Some a → a ≠ [] →
  (approximate_svd_linearity_transition eig_val h).1 = <[eig_val := shifted a]> h.
Proof.
  intros Ha Hne. unfold approximate_svd_linearity_transition, shifted. rewrite Ha.
  destruct a as [|v a]; [done|]. reflexivity.
Qed.


End EstimatorFacts.

Section EstimatorRuns.

Import StandIn.
#[local] Existing Instance collaborators.


End EstimatorRuns.

(** ** The decomposition entry point: residuals and the stored spectrum *)

Section ProjectFacts.

Context `{Collaborators}.

Lemma bind_Ok {A B} (m : outcome A) (f : A → outcome B) b :
  m ≫= f = Ok b → ∃ a, m = Ok a ∧ f a = Ok b.
Proof. destruct m as [a| |]; simpl; [eauto | done..]. Qed.

(** The call [rebuild(components, artifact_components='none', vector=True)]
    names a parameter that [rebuild] does not have. *)
Lemma residual_computation_raises residual_arithmetic c vector :
  residual_computation residual_arithmetic c vector = Raise TypeError.
Proof. reflexivity. Qed.

Lemma decompose_no_residuals fuel h vector shape roimask n_components
    svd_multiplier max_iter c v h' :
  decompose fuel h vector shape roimask n_components svd_multiplier max_iter
  = Ok (c, v, h') →
  residuals_spatial c = None ∧ residuals_temporal c = None.
Proof.
  unfold decompose.
  intros ([X mean] & _ & ([r h1] & _ & [= <- _ _])%bind_Ok)%bind_Ok.
  done.
Qed.

(** C9.  Whenever the decomposition itself completes and the residual
    computation raises, [project] (with [calc_residuals=True]) still returns
    the dictionary of the decomposition: the exception is caught, reported
    in two printed lines, and the dictionary has no residual fields. *)
Theorem project_survives_residual_failure residual_arithmetic fuel h vector
    shape roimask n_components svd_multiplier max_iter c v h' e :
  decompose fuel h vector shape roimask n_components svd_multiplier max_iter
  = Ok (c, v, h') →
  residual_computation residual_arithmetic c v = Raise e →
  ∃ c',
    project residual_arithmetic fuel h vector shape roimask n_components
      svd_multiplier true max_iter
    = Ok (c', [Text "Residual Calculation Failed!!"; TextExn tab e], h')
    ∧ c' = with_project_meta c (Ica.n_components c)
    ∧ residuals_spatial c' = None ∧ residuals_temporal c' = None.
Proof.
  intros Hd Hr. exists (with_project_meta c (Ica.n_components c)).
  destruct (decompose_no_residuals _ _ _ _ _ _ _ _ _ _ _ Hd) as [Hs Ht].
  unfold project. rewrite Hd. cbn [mbind outcome_bind].
  unfold account_residuals. rewrite Hr. cbn [mbind outcome_bind].
  repeat split; simpl; done.
Qed.

(** X6.  Whatever [calc_residuals] is, a dictionary that [project]
    returns has neither [residuals_spatial] nor [residuals_temporal]: the
    call of [rebuild] in the residual block names a keyword that [rebuild]
    does not have. *)
Lemma project_never_has_residuals residual_arithmetic fuel h vector shape roimask
    n_components svd_multiplier calc_residuals max_iter c report h' :
  project residual_arithmetic fuel h vector shape roimask n_components
    svd_multiplier calc_residuals max_iter = Ok (c, report, h') →
  residuals_spatial c = None ∧ residuals_temporal c = None.
Proof.
  unfold project.
  intros ([[c0 v] h0] & Hd & ([c1 rep] & Ha & [= <- _ _])%bind_Ok)%bind_Ok.
  apply decompose_no_residuals in Hd as [Hs Ht].
  unfold account_residuals in Ha. destruct calc_residuals.
  - rewrite residual_computation_raises in Ha. by injection Ha as <- _.
  - by injection Ha as <- _.
Qed.

(** C10, as the code has it.  After the adaptive path, [svd_eigval] refers
    to an array that was not in the store before the call, and that array
    holds the singular values minus their minimum (the in-place shift of
    the estimator); the division by the sum does not reach it.  Nothing
    else of the store has changed. *)
Theorem svd_eigval_holds_shifted_spectrum residual_arithmetic fuel
    (h : gmap loc vec) vector shape roimask svd_multiplier calc_residuals
    max_iter c report h' :
  project residual_arithmetic fuel h vector shape roimask None svd_multiplier
    calc_residuals max_iter = Ok (c, report, h') →
  ∃ l X mean u ev,
    prepare vector roimask = Ok (X, mean)
    ∧ retry_on_value_error (λ gesvd, svd gesvd X) = Ok (u, ev)
    ∧ svd_eigval c = Some l
    ∧ h !! l = None
    ∧ h' = <[l := shifted ev]> h.
Proof.
  unfold project.
  intros ([[c0 v] h0] & Hd & ([c1 rep] & Ha & [= <- _ <-])%bind_Ok)%bind_Ok.
  assert (c1 = c0) as ->.
  { unfold account_residuals in Ha. destruct calc_residuals.
    - rewrite residual_computation_raises in Ha. by injection Ha as <- _.
    - by injection Ha as <- _. }
  clear Ha. cbn [svd_eigval with_project_meta]. unfold decompose in Hd.
  apply bind_Ok in Hd as ([X mean] & Hprep & Hd).
  apply bind_Ok in Hd as ([r h1] & Hpath & [= <- _ <-]). simpl.
  unfold adaptive_path in Hpath.
  apply bind_Ok in Hpath as ([u ev] & Hsvd & Hpath).
  set (l := fresh (dom h)) in *.
  assert (h !! l = None) as Hfresh.
  { apply not_elem_of_dom. apply is_fresh. }
  destruct (approximate_svd_linearity_transition l (<[l:=ev]> h))
    as [h2 cross_1] eqn:Hest.
  apply bind_Ok in Hpath as (k & -> & Hpath).
  apply bind_Ok in Hpath as ([[d n] inc] & _ & Hpath).
  apply bind_Ok in Hpath as ([[d' lag] n'] & _ & [= <- <-]). simpl.
  exists l, X, mean, u, ev. repeat split; try done.
  assert (ev ≠ []) as Hne.
  { intros ->. unfold approximate_svd_linearity_transition in Hest.
    rewrite lookup_insert_eq in Hest. simpl in Hest. congruence. }
  pose proof (estimator_store (<[l:=ev]> h) l ev (lookup_insert_eq _ _ _) Hne) as Hst.
  rewrite Hest in Hst. simpl in Hst. rewrite Hst. apply insert_insert_eq.
Qed.

End ProjectFacts.

Section ProjectRuns.

Import StandIn.
#[local] Existing Instance collaborators.

Lemma project_survives_residual_failure_witness :
  ∃ c',
    project no_arithmetic 1 ∅ vector (4, 2, 3) None (Some 1) None true 1000
    = Ok (c', [Text "Residual Calculation Failed!!"; TextExn tab TypeError], ∅)
    ∧ residuals_spatial c' = None.
Proof.
  destruct (decompose 1 ∅ vector (4, 2, 3) None (Some 1) None 1000)
    as [[[c v] h']| |] eqn:Hd; [|vm_compute in Hd; discriminate..].
  assert (h' = ∅) as -> by (vm_compute in Hd; by injection Hd as _ _ <-).
  destruct (project_survives_residual_failure no_arithmetic 1 ∅ vector (4, 2, 3)
              None (Some 1) None 1000 c v ∅ TypeError Hd
              (residual_computation_raises _ _ _))
    as (c' & Hp & _ & Hs & _).
  exists c'. split; [exact Hp | exact Hs].
Defined.

Lemma svd_eigval_holds_shifted_spectrum_witness :
  ∃ c report l,
    project no_arithmetic 1 ∅ vector (4, 2, 3) None None (Some 5) true 1000
    = Ok (c, report, <[l := shifted [5; 4; 2; 1]%Q]> ∅)
    ∧ svd_eigval c = Some l.
Proof.
  destruct (project no_arithmetic 1 ∅ vector (4, 2, 3) None None (Some 5) true 1000)
    as [[[c report] h']| |] eqn:Hp; [|vm_compute in Hp; discriminate..].
  destruct (svd_eigval_holds_shifted_spectrum _ _ _ _ _ _ _ _ _ _ _ _ Hp)
    as (l & X & mean & u & ev & Hprep & Hsvd & Hl & _ & ->).
  exists c, report, l. split; [|exact Hl].
  injection Hprep as <- _. simpl in Hsvd. injection Hsvd as _ <-. reflexivity.
Defined.

(** C10, as stated, fails on the code.  The singular values 5, 4, 2, 1 are
    left in [svd_eigval] as 4, 3, 1, 0: shifted, but not divided by their
    sum, so they do not sum to one. *)
Lemma svd_eigval_not_normalized :
  match project no_arithmetic 1 ∅ vector (4, 2, 3) None None (Some 5) true 1000 with
  | Ok (c, _, h') =>
      match svd_eigval c with
      | Some l => h' !! l = Some [4; 3; 1; 0]%Q
      | None => False
      end
  | _ => False
  end
  ∧ ¬ (Np.sum [4; 3; 1; 0] == 1)%Q.
Proof. split; [vm_compute; reflexivity | vm_compute; discriminate]. Qed.

End ProjectRuns.

(** ** The adaptive component search *)

Section SearchFacts.

Context `{Collaborators}.

(** A pass that does not break leaves the count at
    [min (n + n // 2) shape[0]] and counts one more growth. *)
Lemma search_iteration_grows vector u shape0 max_iter n inc n' inc' :
  search_iteration vector u shape0 max_iter n inc = Ok (Grow n' inc') →
  n < shape0 ∧ n' = Nat.min (n + n / 2) shape0 ∧ inc' = inc + 1.
Proof.
  unfold search_iteration.
  destruct (fast_ica _ _ _ _ _) as [[eig_vec eig_mix]| |];
    cbn [mbind outcome_bind]; [|done..].
  destruct (sort_noise _) as [noise cutoff].
  destruct (length noise =? shape0); [done|].
  destruct (below _ _); [done|].
  destruct (shape0 <=? n) eqn:Hle; [done|]. apply Nat.leb_gt in Hle.
  destruct (shape0 <? n + n / 2) eqn:Hlt; intros [= <- <-].
  - apply Nat.ltb_lt in Hlt. rewrite Nat.min_r by lia. done.
  - apply Nat.ltb_ge in Hlt. rewrite Nat.min_l by lia. done.
Qed.

(** X4.  When the search returns, the count it ends with is not below the
    count it started from, it is within the time dimension if the start
    was, and the growth counter has not decreased. *)
Lemma search_count_bounds fuel vector u shape0 max_iter n inc d n' inc' :
  search fuel vector u shape0 max_iter n inc = Ok (d, n', inc') →
  n ≤ n' ∧ (n ≤ shape0 → n' ≤ shape0) ∧ inc ≤ inc'.
Proof.
  revert n inc. induction fuel as [|fuel IH]; intros n inc; [done|].
  cbn [search].
  intros ([d0|n1 inc1] & Hit & Hrest)%bind_Ok.
  - injection Hrest as _ <- <-. lia.
  - apply search_iteration_grows in Hit as (Hlt & -> & ->).
    apply IH in Hrest. lia.
Qed.

(** X5.  From a count of at least two the search ends within
    [shape[0] - n + 1] passes (the solver returning or raising each time):
    each pass that grows moves the count strictly towards the time
    dimension. *)
Lemma search_terminates_from_two fuel vector u shape0 max_iter n inc :
  (∀ n w, fast_ica n max_iter w false vector ≠ OutOfFuel) →
  2 ≤ n → shape0 - n < fuel →
  search fuel vector u shape0 max_iter n inc ≠ OutOfFuel.
Proof.
  intros Hica. revert n inc. induction fuel as [|fuel IH]; intros n inc Hn Hfuel;
    [lia|]. cbn [search].
  destruct (search_iteration vector u shape0 max_iter n inc) as [[d|n1 inc1]| |]
    eqn:Hit; cbn [mbind outcome_bind]; [done| |done|].
  - apply search_iteration_grows in Hit as (Hlt & -> & ->).
    assert (1 ≤ n / 2) by (apply Nat.div_le_lower_bound; lia).
    apply IH; lia.
  - unfold search_iteration in Hit. specialize (Hica n (Some (block u n))).
    destruct (fast_ica _ _ _ _ _) as [[eig_vec eig_mix]| |];
      cbn [mbind outcome_bind] in Hit; [|done..].
    destruct (sort_noise _) as [noise cutoff].
    repeat match type of Hit with
           | context [if ?b then _ else _] => destruct b; try done
           end.
Qed.

(** From a count of one the growth [n + n // 2] is no growth. *)
Lemma search_stuck_at_one fuel vector u shape0 max_iter :
  (∀ inc, ∃ inc', search_iteration vector u shape0 max_iter 1 inc = Ok (Grow 1 inc')) →
  ∀ inc, search fuel vector u shape0 max_iter 1 inc = OutOfFuel.
Proof.
  intros Hgrow. induction fuel as [|fuel IH]; intros inc; [done|].
  cbn [search]. destruct (Hgrow inc) as [inc' ->]. cbn [mbind outcome_bind].
  apply IH.
Qed.

End SearchFacts.

Section SearchRuns.

Import StandIn.
#[local] Existing Instance collaborators.

#[local] Ltac run t := let v := eval vm_compute in t in change t with v.

(** C4.  The spectrum 5, 4, 2, 1 has its transition at index 1; with
    [svd_multiplier=1] the search starts from one component.  The solver
    yields one component, the classifier labels it signal, the movie has
    four frames: the pass neither breaks nor grows the count (1 // 2 = 0),
    and the loop has not ended after any number of passes. *)
Theorem adaptive_search_does_not_end_from_one :
  prepare vector None = Ok (centered, frame_means)
  ∧ (approximate_svd_linearity_transition 0 {[0 := [5; 4; 2; 1]%Q]}).2 = Ok 1
  ∧ (∀ inc, search_iteration centered centered 4 1000 (1 * 1) inc
            = Ok (Grow 1 (inc + 1)))
  ∧ ∀ fuel,
      project no_arithmetic fuel ∅ vector (4, 2, 3) None None (Some 1) true 1000
      = OutOfFuel.
Proof.
  split; [vm_compute; reflexivity|].
  split; [vm_compute; reflexivity|]. split; [intros inc; reflexivity|].
  intros fuel. unfold project, decompose.
  run (prepare vector None).
  cbn [mbind outcome_bind default fst]. unfold adaptive_path.
  cbn [retry_on_value_error svd collaborators mbind outcome_bind].
  run (approximate_svd_linearity_transition (fresh (dom (∅ : gmap loc vec)))
         (<[fresh (dom (∅ : gmap loc vec)) := [5; 4; 2; 1]%Q]> ∅)).
  cbn [mbind outcome_bind].
  rewrite search_stuck_at_one; [reflexivity|].
  intros inc. exists (inc + 1). reflexivity.
Qed.

End SearchRuns.

(** ** Index arrays and the order of the components *)

Section Ordering.

Lemma take_indices_Forall2 {A} (l : list A) indices r :
  take_indices l indices = Ok r ↔ Forall2 (λ i v, l !! i = Some v) indices r.
Proof.
  revert r. induction indices as [|i indices IH]; intros r; simpl.
  - split; [intros [= <-]; constructor | by inversion 1].
  - destruct (l !! i) as [v|] eqn:Hi.
    + split.
      * intros (vs & Hvs%IH & [= <-])%bind_Ok. by constructor.
      * inversion 1 as [|? v' ? vs Hv Hvs]; subst.
        apply IH in Hvs as ->. simpl. congruence.
    + split; [done|]. inversion 1; congruence.
Qed.

Lemma take_indices_in_range {A} (l : list A) indices :
  Forall (λ i, i < length l) indices → ∃ r, take_indices l indices = Ok r.
Proof.
  induction 1 as [|i indices Hi _ [r IH]]; simpl; [eauto|].
  destruct (lookup_lt_is_Some_2 l i Hi) as [v ->]. rewrite IH. simpl. eauto.
Qed.


#[local] Instance key_le_total : Total (λ a b : Q * nat, (a.1 <= b.1)%Q).
Proof.
  intros [a i] [b j]. simpl.
  destruct (Qlt_le_dec a b); [left; by apply Qlt_le_weak | by right].
Qed.

#[local] Instance key_le_trans : Transitive (λ a b : Q * nat, (a.1 <= b.1)%Q).
Proof. intros [a i] [b j] [c k]. simpl. apply Qle_trans. Qed.

Lemma argsort_Permutation (keys : vec) : argsort keys ≡ₚ seq 0 (length keys).
Proof.
  unfold argsort. rewrite merge_sort_Permutation.
  rewrite snd_zip; [done|]. by rewrite length_seq.
Qed.

Lemma argsort_in_range (keys : vec) n :
  length keys ≤ n → Forall (λ i, i < n) (argsort keys).
Proof.
  intros Hn. rewrite argsort_Permutation. apply Forall_seq. lia.
Qed.


Lemma argsort_length (keys : vec) : length (argsort keys) = length keys.
Proof. by rewrite argsort_Permutation, length_seq. Qed.




End Ordering.

(** ** The post-hoc crop *)

Section Crop.

Lemma noise_sum_le noise : noise_sum noise ≤ length noise.
Proof.
  unfold noise_sum. induction noise as [|[] noise IH]; simpl; lia.
Qed.

(** [int(k * 1.25)] is the quotient of [5 * k] by 4, rounded down. *)
Lemma reduced_n_components_floor noise :
  reduced_n_components noise = 5 * (length noise - noise_sum noise) / 4.
Proof.
  unfold reduced_n_components, int. pose proof (noise_sum_le noise) as Hle.
  rewrite <- Nat2Z.inj_sub by done.
  set (k := length noise - noise_sum noise).
  cbn [Qnum Qden Qmult inject_Z]. rewrite Pos.mul_1_l.
  rewrite Z.quot_div_nonneg by lia.
  change 125%Z with (5 * 25)%Z. change (Z.pos 100) with (4 * 25)%Z.
  rewrite Z.mul_assoc, Z.div_mul_cancel_r by lia.
  rewrite (Z.mul_comm (Z.of_nat k) 5).
  change 5%Z with (Z.of_nat 5). change 4%Z with (Z.of_nat 4).
  rewrite <- Nat2Z.inj_mul, <- Nat2Z.inj_div. apply Nat2Z.id.
Qed.

Lemma map_fmap {A B} (f : A → B) (l : list A) : map f l = f <$> l.
Proof. reflexivity. Qed.



Section CropRuns.

Import StandIn.



End CropRuns.

End Crop.

(** ** The fixed-count normalizer *)

Section Normalizer.











Section NormalizerRuns.

Import StandIn.


End NormalizerRuns.

End Normalizer.

(** * Further properties *)

(** ** The dispatcher and the search, on concrete runs *)

Section FurtherRuns.

Import StandIn.
#[local] Existing Instance collaborators.


Lemma filter_mean_unsupported_witness :
  filter_mean [1; 2; 3]%Q "median" (15 # 2) (1 # 2) 1
  = Raise (Exception (unsupported "median")).
Proof.
  apply filter_mean_unsupported. unfold supported.
  intros Hin. repeat (apply elem_of_cons in Hin as [Hin|Hin]; [discriminate|]).
  by apply elem_of_nil in Hin.
Defined.

Lemma search_count_bounds_witness :
  ∃ d, search 3 centered centered 4 1000 2 0 = Ok (d, 4, 2) ∧ 2 ≤ 4 ∧ 0 ≤ 2.
Proof.
  destruct (search 3 centered centered 4 1000 2 0) as [[[d n'] inc']| |] eqn:Hs;
    [|vm_compute in Hs; discriminate..].
  destruct (search_count_bounds _ _ _ _ _ _ _ _ _ _ Hs) as (Hn & _ & Hinc).
  assert (n' = 4 ∧ inc' = 2) as [-> ->].
  { vm_compute in Hs. by injection Hs as _ <- <-. }
  exists d. done.
Defined.

Lemma search_terminates_from_two_witness :
  search 3 centered centered 4 1000 2 0 ≠ OutOfFuel.
Proof.
  apply search_terminates_from_two; [done | lia | simpl; lia].
Defined.

Lemma project_never_has_residuals_witness :
  ∃ c report h',
    project no_arithmetic 1 ∅ vector (4, 2, 3) None (Some 2) None true 1000
    = Ok (c, report, h')
    ∧ residuals_spatial c = None ∧ residuals_temporal c = None.
Proof.
  destruct (project no_arithmetic 1 ∅ vector (4, 2, 3) None (Some 2) None true 1000)
    as [[[c report] h']| |] eqn:Hp; [|vm_compute in Hp; discriminate..].
  exists c, report, h'. split; [done|].
  exact (project_never_has_residuals _ _ _ _ _ _ _ _ _ _ _ _ _ Hp).
Defined.

End FurtherRuns.

(** ** Mean removal and the crop through the mask *)

Section Prepare.



Lemma mapM_cons {A B} (f : A → outcome B) x (l : list A) :
  mapM f (x :: l) = y ← f x; k ← mapM f l; Ok (y :: k).
Proof. reflexivity. Qed.

Lemma mapM_Ok {A B} (f : A → outcome B) (l : list A) ks :
  mapM f l = Ok ks ↔ Forall2 (λ x y, f x = Ok y) l ks.
Proof.
  revert ks. induction l as [|x l IH]; intros ks.
  - split; [intros [= <-]; constructor | by inversion 1].
  - rewrite mapM_cons. split.
    + intros (y & Hy & (k & Hk%IH & [= <-])%bind_Ok)%bind_Ok. by constructor.
    + inversion 1 as [|? y ? k Hy Hk]; subst. apply IH in Hk.
      by rewrite Hy, Hk.
Qed.


Lemma where_from_in_range {A} (p : A → bool) k (l : list A) :
  Forall (λ i, i < k + length l) (where_from p k l).
Proof.
  revert k. induction l as [|a l IH]; intros k; cbn; [constructor|].
  specialize (IH (S k)).
  assert (Forall (λ i, i < k + S (length l)) (where_from p (S k) l)) as IH'.
  { eapply Forall_impl; [exact IH|]. intros i Hi. cbn in Hi. lia. }
  destruct (p a); [constructor; [lia|done] | done].
Qed.

(** X8.  With a mask, the preparation raises [AssertionError] when the
    mask does not have one entry per row of the matrix; otherwise (every
    frame holding one value per row) it returns a matrix with as many rows
    as the mask has entries equal to one, in every frame. *)
Theorem prepare_crops_to_mask (vector : arr2 Q) (flat : list Z) :
  (length flat ≠ nrows vector → prepare vector (Some flat) = Raise AssertionError)
  ∧ (length flat = nrows vector →
     Forall (λ frame, length frame = nrows vector) (columns vector) →
     ∃ X mean,
       prepare vector (Some flat) = Ok (X, mean)
       ∧ nrows X = length (where_ (Z.eqb 1) flat)
       ∧ ncols X = ncols vector
       ∧ Forall (λ frame, length frame = length (where_ (Z.eqb 1) flat))
                (columns X)).
Proof.
  split.
  - intros Hne. unfold prepare, assert.
    destruct (Nat.eqb_spec (length flat) (nrows vector)); done.
  - intros Hlen Hwf. unfold prepare, assert. rewrite Hlen, Nat.eqb_refl.
    cbn [mbind outcome_bind]. unfold select_rows.
    set (maskind := where_ (Z.eqb 1) flat).
    assert (∃ cs, mapM (λ c, take_indices c maskind) (columns vector) = Ok cs
                  ∧ Forall (λ frame, length frame = length maskind) cs
                  ∧ length cs = length (columns vector)) as (cs & -> & Hcs & Hn).
    { induction Hwf as [|frame frames Hframe _ (cs & IH & Hcs & Hn)].
      - exists []. by repeat split.
      - destruct (take_indices_in_range frame maskind) as [r Hr].
        { rewrite Hframe, <- Hlen. apply (where_from_in_range _ 0). }
        exists (r :: cs). rewrite mapM_cons, Hr, IH. cbn [mbind outcome_bind].
        repeat split; [|cbn [length]; by rewrite Hn].
        constructor; [|done]. apply take_indices_Forall2 in Hr.
        by rewrite <- (Forall2_length _ _ _ Hr). }
    cbn [mbind outcome_bind nrows columns].
    eexists _, _. split; [reflexivity|]. cbn [nrows columns]. unfold ncols.
    cbn [columns]. split; [done|]. split.
    + rewrite length_zip_with, length_map. lia.
    + apply Forall_forall. intros frame Hin.
      apply elem_of_lookup_zip_with in Hin as (j & col & m & -> & Hcol & _).
      rewrite length_map. rewrite Forall_forall in Hcs.
      apply Hcs. by eapply list_elem_of_lookup_2.
Qed.

End Prepare.

Section PrepareRuns.

Import StandIn.

Lemma prepare_crops_to_mask_witness :
  ∃ X mean,
    prepare vector (Some [1; 0; 1; 1; 0; 0]%Z) = Ok (X, mean) ∧ nrows X = 3.
Proof.
  destruct (proj2 (prepare_crops_to_mask vector [1; 0; 1; 1; 0; 0]%Z) eq_refl)
    as (X & mean & Hp & Hrows & _).
  - repeat constructor.
  - exists X, mean. split; [exact Hp | exact Hrows].
Defined.

End PrepareRuns.

(** ** The estimator: range of the index and state of the caller's array *)

Section EstimatorMore.

Context `{Collaborators}.

Lemma cumsum_from_length acc (v : vec) : length (cumsum_from acc v) = length v.
Proof.
  revert acc. induction v as [|a v IH]; intros acc; cbn; [done|]. by rewrite IH.
Qed.

(** X9.  An index that the estimator returns is a position of the
    spectrum it was given. *)
Theorem transition_within_spectrum (h : gmap loc vec) eig_val a i :
  h !! eig_val = Some a →
  (approximate_svd_linearity_transition eig_val h).2 = Ok i →
  i < length a.
Proof.
  intros Ha Hr. destruct (decide (a = [])) as [->|Hne].
  { unfold approximate_svd_linearity_transition in Hr. rewrite Ha in Hr. done. }
  rewrite (estimator_result _ _ _ Ha Hne) in Hr.
  apply transition_of_spec in Hr as (_ & (x & y & Hx & _ & _) & _).
  apply lookup_lt_Some in Hx. unfold energy_curve, cumsum in Hx.
  rewrite cumsum_from_length, length_map in Hx.
  unfold shifted in Hx. destruct (Np.min a); cbn in Hx; [|lia..].
  by rewrite length_map in Hx.
Qed.

Lemma not_negative_le (a b : Q) : Qltb b a = false → (a <= b)%Q.
Proof.
  unfold Qltb. intros Hle%negb_false_iff. by apply Qle_bool_iff.
Qed.

Lemma fold_min_spec (v : vec) (a : Q) :
  let m := fold_left (λ m b, if Qltb b m then b else m) v a in
  m ∈ a :: v ∧ (m <= a)%Q ∧ Forall (λ b, (m <= b)%Q) v.
Proof.
  revert a. induction v as [|b v IH]; intros a; cbn.
  - split; [by left|]. split; [apply Qle_refl | constructor].
  - destruct (Qltb b a) eqn:Hlt.
    + destruct (IH b) as (Hin & Hle & Hall). apply Qltb_lt in Hlt.
      split; [by right|]. split; [|by constructor].
      eapply Qle_trans; [exact Hle|]. by apply Qlt_le_weak.
    + destruct (IH a) as (Hin & Hle & Hall).
      split; [|split; [done|]].
      * apply elem_of_cons in Hin as [->|Hin]; [by left | by do 2 right].
      * constructor; [|done].
        eapply Qle_trans; [exact Hle|]. by apply not_negative_le.
Qed.

(** X10.  Called on a non-empty spectrum, the estimator leaves in the
    caller's array, whether it returns or raises, an array of the same
    length whose entries are all at least zero, one of them zero; no other
    array of the store is touched. *)
Theorem estimator_leaves_shifted_array (h : gmap loc vec) eig_val a :
  h !! eig_val = Some a → a ≠ [] →
  ∃ s,
    (approximate_svd_linearity_transition eig_val h).1 !! eig_val = Some s
    ∧ length s = length a
    ∧ Forall (λ v, (0 <= v)%Q) s
    ∧ Exists (λ v, (v == 0)%Q) s
    ∧ ∀ other, other ≠ eig_val →
        (approximate_svd_linearity_transition eig_val h).1 !! other = h !! other.
Proof.
  intros Ha Hne. rewrite (estimator_store _ _ _ Ha Hne).
  exists (shifted a). rewrite lookup_insert_eq. split; [done|].
  destruct a as [|a0 v]; [done|]. unfold shifted. cbn [Np.min].
  destruct (fold_min_spec v a0) as (Hin & Hle & Hall).
  set (m := fold_left _ v a0) in *.
  split; [by rewrite length_map|]. split; [|split].
  - rewrite Forall_map. constructor.
    + cbn. by apply Qle_minus_iff in Hle.
    + eapply Forall_impl; [exact Hall|]. intros b Hb. cbn.
      by apply Qle_minus_iff in Hb.
  - apply Exists_exists. exists (m - m)%Q. split; [|ring].
    exact (list_elem_of_fmap_2 (λ v, (v - m)%Q) _ _ Hin).
  - intros other Hother. by rewrite lookup_insert_ne.
Qed.

End EstimatorMore.

Section EstimatorMoreRuns.

Import StandIn.
#[local] Existing Instance collaborators.

Lemma transition_within_spectrum_witness :
  (approximate_svd_linearity_transition 0 {[0 := [5; 4; 2; 1]%Q]}).2 = Ok 1 ∧ 1 < 4.
Proof.
  assert ((approximate_svd_linearity_transition 0 {[0 := [5; 4; 2; 1]%Q]}).2 = Ok 1)
    as Hrun by (vm_compute; reflexivity).
  split; [exact Hrun|].
  exact (transition_within_spectrum {[0 := [5; 4; 2; 1]%Q]} 0 [5; 4; 2; 1]%Q 1
           (lookup_singleton_eq _ _) Hrun).
Defined.

Lemma estimator_leaves_shifted_array_witness :
  ∃ s, (approximate_svd_linearity_transition 0 {[0 := [5; 4; 2; 1]%Q]}).1 !! 0 = Some s
       ∧ length s = 4.
Proof.
  destruct (estimator_leaves_shifted_array {[0 := [5; 4; 2; 1]%Q]} 0 [5; 4; 2; 1]%Q
              (lookup_singleton_eq _ _)) as (s & Hs & Hlen & _); [done|].
  exists s. split; [exact Hs | exact Hlen].
Defined.

End EstimatorMoreRuns.

(** ** The reconstruction engine on the path that reconstructs *)

Section RebuildMore.

Context `{Collaborators}.

(** X11.  With no override passed and no [artifact_components] stored in
    the dictionary, [rebuild] raises [KeyError] for that key, whatever the
    options (the dictionary having at least one component). *)
Theorem rebuild_needs_artifact_components c kw :
  columns (eig_vec c) ≠ [] →
  artifact_components c = None →
  rebuild c ArgNone kw = Raise (KeyError "artifact_components").
Proof.
  intros Hcols Hart. unfold rebuild. destruct (shape c) as [[t x] y].
  unfold column_size. destruct (columns (eig_vec c)) as [|col cols]; [done|].
  cbn [lookup list_lookup mbind outcome_bind resolve_exclusion getitem].
  by rewrite Hart.
Qed.

Lemma where_from_all {A} (p : A → bool) k (l : list A) :
  Forall (λ v, p v = true) l → where_from p k l = seq k (length l).
Proof.
  intros Hl. revert k. induction Hl as [|v l Hv _ IH]; intros k; cbn; [done|].
  by rewrite Hv, IH.
Qed.

Lemma take_indices_all {A} (l : list A) : take_indices l (seq 0 (length l)) = Ok l.
Proof.
  apply take_indices_Forall2. apply Forall2_same_length_lookup.
  split; [by rewrite length_seq|].
  intros i j v Hj Hv. apply lookup_seq in Hj as [-> _]. done.
Qed.

Lemma slice_length {A} (l : list A) start stop :
  length (slice l start stop) = slice_len (length l) start stop.
Proof.
  unfold slice. rewrite length_take, length_drop. unfold slice_len.
  pose proof (slice_stop_le (length l) stop). lia.
Qed.

Lemma slice_lookup {A} (l : list A) (s e : Z) i :
  (0 ≤ s)%Z → i < slice_len (length l) (Some s) (Some e) →
  slice l (Some s) (Some e) !! i = l !! (Z.to_nat s + i).
Proof.
  intros Hs Hi. unfold slice. rewrite lookup_take_lt by done.
  rewrite lookup_drop. f_equal. f_equal.
  unfold slice_len, slice_stop, slice_start, slice_bound in *.
  destruct (s <? 0)%Z eqn:E1; [lia|]. destruct (e <? 0)%Z eqn:E2; lia.
Qed.

Lemma length_concat_uniform {A} (rows : list (list A)) w :
  Forall (λ r, length r = w) rows → length (concat rows) = length rows * w.
Proof.
  induction 1 as [|r rows Hr _ IH]; cbn; [done|].
  rewrite length_app, IH, Hr. done.
Qed.

Lemma lookup_concat_uniform {A} (rows : list (list A)) w i j r :
  Forall (λ r, length r = w) rows → rows !! i = Some r → j < w →
  concat rows !! (i * w + j) = r !! j.
Proof.
  intros Hrows. revert i. induction Hrows as [|r0 rows Hr0 _ IH]; intros i;
    [done|].
  destruct i as [|i]; cbn [lookup list_lookup concat].
  - intros [= ->] Hj. cbn. by rewrite lookup_app_l by lia.
  - intros Hi Hj. rewrite lookup_app_r by (cbn; lia).
    rewrite <- (IH i Hi Hj). f_equal. cbn. lia.
Qed.

Lemma zip_with_ext_r {A B C} (f g : A → B → C) (l : list A) (k : list B) :
  Forall (λ b, ∀ a, f a b = g a b) k → zip_with f l k = zip_with g l k.
Proof.
  intros Hk. revert l. induction Hk as [|b k Hb _ IH]; intros [|a l]; cbn;
    [done..|]. by rewrite Hb, IH.
Qed.

Section Path.

(** A dictionary that keeps the invariants of a decomposition without a
    mask, and the options of a plain reconstruction through the component
    filter. *)
Variables (c : components) (kw : rebuild_kwargs) (t x y n T : nat).

Hypothesis Hmask : roimask c = None.
Hypothesis Hshape : shape c = (t, x, y).
Hypothesis Hn : n_components c = n.
Hypothesis Hpos : 0 < n.
Hypothesis HV : ncols (eig_vec c) = n.
Hypothesis HVrows : nrows (eig_vec c) = x * y.
Hypothesis HVcols : Forall (λ col, length col = x * y) (columns (eig_vec c)).
Hypothesis HM : ncols (eig_mix c) = n.
Hypothesis HMrows : nrows (eig_mix c) = T.
Hypothesis Hfilter :
  Forall (λ tc, length (butterworth tc None None (Some (chigh kw))) = T)
         (columns (eig_mix c)).
Hypothesis Hmean : length (mean c) = T.
Hypothesis Hcomponent : apply_component_filter kw = true.
Hypothesis Hmasked : apply_masked_mean kw = false.
Hypothesis Hmeanfilter : apply_mean_filter kw = false.

Let filtered : list vec :=
  map (λ tc, butterworth tc None None (Some (chigh kw))) (columns (eig_mix c)).

Let s : Z := default 0%Z (t_start kw).

Let e : Z := default (Z.of_nat T) (t_stop kw).

Let frames : list vec :=
  zip_with (λ row m, map (λ v, (v + m)%Q) row)
    (dot_T (eig_vec c) (slice_rows (Arr2 T filtered) (Some s) (Some e)))
    (slice (mean c) (Some s) (Some e)).

Lemma filter_timecourses_Ok :
  filter_timecourses (eig_mix c) (chigh kw) = Ok (Arr2 T filtered).
Proof.
  unfold filter_timecourses. rewrite HMrows.
  assert (mapM (λ tc, broadcast_to T (butterworth tc None None (Some (chigh kw))))
               (columns (eig_mix c)) = Ok filtered) as ->; [|done].
  apply mapM_Ok. unfold filtered. apply Forall2_fmap_r, Forall_Forall2_diag.
  eapply Forall_impl; [exact Hfilter|]. intros tc Htc. cbn.
  by apply broadcast_to_same.
Qed.

Lemma rebuild_filtered_path :
  rebuild c ArgSentinel kw = reshape3 (concat frames) (e - s) x y.
Proof.
  unfold rebuild. rewrite Hshape. unfold column_size, ncols in *.
  destruct (eig_vec c) as [vrows vcols] eqn:HeqV. cbn [nrows columns] in *.
  destruct vcols as [|col0 vcols]; [cbn in HV; lia|].
  cbn [lookup list_lookup mbind outcome_bind resolve_exclusion].
  rewrite Hn. unfold where_, zeros.
  rewrite where_from_all by (apply Forall_replicate; reflexivity).
  rewrite length_replicate, length_seq.
  destruct (Nat.eqb_spec n 0) as [|_]; [lia|].
  rewrite Hmask. apply Forall_cons in HVcols as [Hcol0 _]. rewrite Hcol0.
  unfold assert. rewrite Nat.eqb_refl. cbn [mbind outcome_bind].
  rewrite Hcomponent, filter_timecourses_Ok. cbn [mbind outcome_bind local].
  assert ((match t_stop kw with
           | Some stop => Ok stop
           | None => Ok (Z.of_nat (nrows (Arr2 T filtered)))
           end : outcome Z) = Ok e) as ->.
  { unfold e. by destruct (t_stop kw). }
  cbn [mbind outcome_bind]. fold s. unfold select_columns. cbn [columns nrows].
  rewrite <- HV at 1. rewrite take_indices_all. cbn [mbind outcome_bind].
  assert (length filtered = n) as Hlen by (unfold filtered; by rewrite length_map).
  rewrite <- Hlen at 1. rewrite take_indices_all. cbn [mbind outcome_bind].
  rewrite Hmasked, Hmeanfilter. cbn [mbind outcome_bind].
  unfold iadd_column. rewrite broadcast_to_same.
  - cbn [mbind outcome_bind]. reflexivity.
  - rewrite slice_length, Hmean. unfold dot_T. rewrite length_map, length_seq.
    reflexivity.
Qed.

Lemma frames_uniform : Forall (λ r, length r = x * y) frames.
Proof.
  unfold frames. apply Forall_forall. intros r Hr.
  apply elem_of_lookup_zip_with in Hr as (i & row & m & -> & Hrow & _).
  rewrite length_map. unfold dot_T in Hrow.
  rewrite map_fmap, list_lookup_fmap in Hrow.
  destruct (seq 0 _ !! i); [|done]. injection Hrow as <-.
  by rewrite length_map, length_seq.
Qed.

Lemma frames_length : length frames = slice_len T (Some s) (Some e).
Proof.
  unfold frames. rewrite length_zip_with, slice_length, Hmean.
  unfold dot_T. rewrite length_map, length_seq. cbn [nrows slice_rows]. lia.
Qed.

Lemma frames_lookup tt p :
  (0 ≤ s)%Z → tt < slice_len T (Some s) (Some e) → p < x * y →
  concat frames !! (tt * (x * y) + p)
  = Some (Np.sum (zip_with (λ vc fc, (nth p vc 0 * nth (Z.to_nat s + tt) fc 0)%Q)
                           (columns (eig_vec c)) filtered)
          + nth (Z.to_nat s + tt) (mean c) 0)%Q.
Proof.
  intros Hs Htt Hp.
  assert (is_Some (mean c !! (Z.to_nat s + tt))) as [m Hm].
  { rewrite <- (slice_lookup _ s e) by (done || by rewrite Hmean).
    apply lookup_lt_is_Some. by rewrite slice_length, Hmean. }
  set (row := map (λ p, Np.sum (zip_with (λ vc mc, (nth p vc 0 * nth tt mc 0)%Q)
                                 (columns (eig_vec c))
                                 (map (λ col, slice col (Some s) (Some e)) filtered)))
                  (seq 0 (x * y))).
  assert (frames !! tt = Some (map (λ v, (v + m)%Q) row)) as Hframe.
  { unfold frames. rewrite lookup_zip_with.
    rewrite (slice_lookup _ s e) by (done || by rewrite Hmean). rewrite Hm.
    unfold dot_T. rewrite map_fmap, list_lookup_fmap. cbn [slice_rows nrows columns].
    rewrite (lookup_seq_lt 0 _ tt Htt), HVrows. reflexivity. }
  rewrite (lookup_concat_uniform _ _ _ _ _ frames_uniform Hframe Hp).
  rewrite map_fmap, list_lookup_fmap. unfold row.
  rewrite map_fmap, list_lookup_fmap, lookup_seq_lt by done. cbn.
  rewrite (nth_lookup_Some _ _ _ _ Hm). do 3 f_equal.
  rewrite map_fmap, zip_with_fmap_r. apply zip_with_ext_r.
  apply Forall_forall. intros fc Hfc vc. f_equal.
  assert (length fc = T) as Hfcl.
  { unfold filtered in Hfc. apply list_elem_of_fmap_1 in Hfc as (tc & -> & Htc).
    rewrite Forall_forall in Hfilter. by apply Hfilter. }
  change (take _ (drop _ fc)) with (slice fc (Some s) (Some e)).
  rewrite !nth_lookup. by rewrite slice_lookup by (done || by rewrite Hfcl).
Qed.

End Path.

(** X12.  Let a dictionary hold [n > 0] components over [x * y] pixels and
    [T] frames, a mean per frame, and no mask; let every component be
    included, the component filter be on (and keep the length of a time
    course), the mean filter and the masked mean be off, and the window
    [s, e) (defaults 0 and [T]) lie inside the [T] frames.  Then [rebuild]
    returns a movie of shape [(e - s, x, y)] whose value at frame [tt] and
    pixel [p] is the sum over the components of the spatial loading at [p]
    times the filtered time course at frame [s + tt], plus the mean of
    frame [s + tt]. *)
Theorem rebuild_reconstructs (c : components) (kw : rebuild_kwargs) (t x y n T : nat) :
  roimask c = None → shape c = (t, x, y) → n_components c = n → 0 < n →
  ncols (eig_vec c) = n → nrows (eig_vec c) = x * y →
  Forall (λ col, length col = x * y) (columns (eig_vec c)) →
  ncols (eig_mix c) = n → nrows (eig_mix c) = T →
  Forall (λ tc, length (butterworth tc None None (Some (chigh kw))) = T)
         (columns (eig_mix c)) →
  length (mean c) = T →
  apply_component_filter kw = true → apply_masked_mean kw = false →
  apply_mean_filter kw = false →
  let s := default 0%Z (t_start kw) in
  let e := default (Z.of_nat T) (t_stop kw) in
  (0 ≤ s)%Z → (s ≤ e)%Z → (e ≤ Z.of_nat T)%Z →
  ∃ m,
    rebuild c ArgSentinel kw = Ok m
    ∧ mshape m = (Z.to_nat (e - s), x, y)
    ∧ length (mflat m) = Z.to_nat (e - s) * (x * y)
    ∧ ∀ tt p, tt < Z.to_nat (e - s) → p < x * y →
        mflat m !! (tt * (x * y) + p)
        = Some (Np.sum (zip_with
                          (λ vc tc, (nth p vc 0
                                     * nth (Z.to_nat s + tt)
                                           (butterworth tc None None (Some (chigh kw))) 0)%Q)
                          (columns (eig_vec c)) (columns (eig_mix c)))
                + nth (Z.to_nat s + tt) (mean c) 0)%Q.
Proof.
  intros Hmask Hshape Hn Hpos HV HVrows HVcols HM HMrows Hfilter Hmean
    Hcomponent Hmasked Hmeanfilter s e Hs Hse He.
  pose proof (slice_len_inside T s e Hs Hse He) as Hlen.
  rewrite (rebuild_filtered_path c kw t x y n T) by done. fold s e.
  pose proof (frames_uniform c kw x y T HVrows) as Huni.
  pose proof (frames_length c kw x y n T Hn Hpos HV HVrows HM HMrows Hmean)
    as Hframes.
  fold s e in Huni, Hframes.
  pose proof (length_concat_uniform _ _ Huni) as Hflat. rewrite Hframes in Hflat.
  assert (slice_len T (Some s) (Some e) = Z.to_nat (e - s)) as Hnat by lia.
  unfold reshape3.
  destruct (Z.eqb_spec (e - s) (-1)) as [|_]; [lia|].
  destruct (Z.ltb_spec (e - s) 0) as [|_]; [lia|].
  rewrite Hflat, Hnat, <- Nat.mul_assoc, Nat.eqb_refl.
  eexists. split; [reflexivity|]. cbn [mshape mflat].
  split; [done|]. split; [lia|].
  intros tt p Htt Hp.
  pose proof (frames_lookup c kw x y T HVrows Hfilter Hmean tt p Hs) as Hlook.
  fold s e in Hlook. rewrite Hlook by lia.
  by rewrite map_fmap, zip_with_fmap_r.
Qed.

(** X13.  In the same setting, a window that ends beyond the [T] frames is
    not cut to them: the frames that exist no longer fill the shape that
    was asked for, and [rebuild] raises [ValueError]. *)
Theorem rebuild_window_beyond_frames_raises (c : components) (kw : rebuild_kwargs)
    (t x y n T : nat) :
  roimask c = None → shape c = (t, x, y) → n_components c = n → 0 < n →
  ncols (eig_vec c) = n → nrows (eig_vec c) = x * y →
  Forall (λ col, length col = x * y) (columns (eig_vec c)) →
  ncols (eig_mix c) = n → nrows (eig_mix c) = T →
  Forall (λ tc, length (butterworth tc None None (Some (chigh kw))) = T)
         (columns (eig_mix c)) →
  length (mean c) = T →
  apply_component_filter kw = true → apply_masked_mean kw = false →
  apply_mean_filter kw = false →
  let s := default 0%Z (t_start kw) in
  let e := default (Z.of_nat T) (t_stop kw) in
  0 < x * y → (0 ≤ s)%Z → (s ≤ Z.of_nat T)%Z → (Z.of_nat T < e)%Z →
  rebuild c ArgSentinel kw = Raise ValueError.
Proof.
  intros Hmask Hshape Hn Hpos HV HVrows HVcols HM HMrows Hfilter Hmean
    Hcomponent Hmasked Hmeanfilter s e Hxy Hs HsT He.
  rewrite (rebuild_filtered_path c kw t x y n T) by done. fold s e.
  pose proof (frames_uniform c kw x y T HVrows) as Huni.
  pose proof (frames_length c kw x y n T Hn Hpos HV HVrows HM HMrows Hmean)
    as Hframes.
  fold s e in Huni, Hframes.
  pose proof (length_concat_uniform _ _ Huni) as Hflat. rewrite Hframes in Hflat.
  assert (slice_len T (Some s) (Some e) = T - Z.to_nat s) as Hnat.
  { unfold slice_len, slice_stop, slice_start, slice_bound.
    destruct (s <? 0)%Z eqn:E1; [lia|]. destruct (e <? 0)%Z eqn:E2; lia. }
  unfold reshape3.
  destruct (Z.eqb_spec (e - s) (-1)) as [|_]; [lia|].
  destruct (Z.ltb_spec (e - s) 0) as [|_]; [lia|].
  rewrite Hflat, Hnat.
  destruct (Nat.eqb_spec (Z.to_nat (e - s) * x * y) ((T - Z.to_nat s) * (x * y)))
    as [Heq|_]; [|done].
  rewrite <- Nat.mul_assoc in Heq. apply Nat.mul_cancel_r in Heq; lia.
Qed.

End RebuildMore.

Section RebuildMoreRuns.

Import StandIn.
#[local] Existing Instance collaborators.

Lemma rebuild_needs_artifact_components_witness :
  rebuild one_component ArgNone rebuild_defaults
  = Raise (KeyError "artifact_components").
Proof.
  apply rebuild_needs_artifact_components; [discriminate | reflexivity].
Defined.

Lemma rebuild_reconstructs_witness :
  ∃ m, rebuild one_component ArgSentinel
         (with_window through_component_filter (Some 1%Z) (Some 3%Z)) = Ok m
       ∧ mshape m = (2, 1, 2)
       ∧ length (mflat m) = 4.
Proof.
  destruct (rebuild_reconstructs one_component
              (with_window through_component_filter (Some 1%Z) (Some 3%Z))
              4 1 2 1 4)
    as (m & Hm & Hshape & Hlen & _); try reflexivity; try (cbn; lia).
  - repeat constructor.
  - repeat constructor.
  - exists m. split; [exact Hm|]. split; [exact Hshape | exact Hlen].
Defined.

Lemma rebuild_window_beyond_frames_raises_witness :
  rebuild one_component ArgSentinel
    (with_window through_component_filter None (Some 10%Z))
  = Raise ValueError.
Proof.
  apply (rebuild_window_beyond_frames_raises one_component
           (with_window through_component_filter None (Some 10%Z)) 4 1 2 1 4);
    try reflexivity; try (cbn; lia); repeat constructor.
Defined.

End RebuildMoreRuns.

(** ** The search pass in whole numbers *)

Section Threshold.

Context `{Collaborators}.

Lemma below_75_iff (noise : list bool) :
  below (p_signal noise) 75 = true ↔ length noise < 4 * noise_sum noise.
Proof.
  unfold p_signal. pose proof (noise_sum_le noise) as Hle.
  destruct (Nat.eqb_spec (length noise) 0) as [Hz|Hnz].
  { cbn. split; [done | lia]. }
  cbn [below]. rewrite Qltb_lt.
  set (k := noise_sum noise) in *. set (n := length noise) in *.
  assert (∃ p, Z.of_nat n = Z.pos p) as [p Hp].
  { exists (Z.to_pos (Z.of_nat n)). rewrite Z2Pos.id; lia. }
  rewrite Hp. unfold Qlt, Qdiv, Qinv, Qmult, Qminus, Qplus, Qopp, inject_Z.
  cbn [Qnum Qden]. split; intros Hlt; nia.
Qed.

(** X14.  A pass of the search (the solver having returned) asks for more
    components exactly when the classifier gave a number of labels other
    than the number of frames, at most a quarter of the labels are noise,
    and the count is below the number of frames; the new count is then
    [min (n + n // 2) shape[0]].  In every other case the pass ends the
    search with the factors it has. *)
Theorem search_iteration_decision vector u shape0 max_iter n inc eig_vec eig_mix :
  fast_ica n max_iter (Some (block u n)) false vector = Ok (eig_vec, eig_mix) →
  let noise := (sort_noise (columns eig_mix)).1 in
  let cutoff := (sort_noise (columns eig_mix)).2 in
  search_iteration vector u shape0 max_iter n inc
  = if bool_decide (length noise ≠ shape0
                    ∧ 4 * noise_sum noise ≤ length noise
                    ∧ n < shape0)
    then Ok (Grow (Nat.min (n + n / 2) shape0) (inc + 1))
    else Ok (Break (Decomposition eig_vec eig_mix noise cutoff)).
Proof.
  intros Hica noise cutoff. unfold search_iteration. rewrite Hica.
  cbn [mbind outcome_bind]. subst noise cutoff.
  destruct (sort_noise (columns eig_mix)) as [noise cutoff]. cbn [fst snd].
  pose proof (below_75_iff noise) as Hbelow.
  destruct (Nat.eqb_spec (length noise) shape0) as [Heq|Hne].
  { rewrite bool_decide_eq_false_2; [done | tauto]. }
  destruct (below (p_signal noise) 75) eqn:Hb.
  { rewrite bool_decide_eq_false_2; [done|]. intros (_ & Hq & _).
    apply proj1 in Hbelow. specialize (Hbelow eq_refl). lia. }
  destruct (Nat.leb_spec shape0 n) as [Hle|Hlt].
  { rewrite bool_decide_eq_false_2; [done | lia]. }
  rewrite bool_decide_eq_true_2.
  - destruct (Nat.ltb_spec shape0 (n + n / 2)).
    + by rewrite Nat.min_r by lia.
    + by rewrite Nat.min_l by lia.
  - repeat split; [done| |done].
    destruct (Nat.le_gt_cases (4 * noise_sum noise) (length noise)) as [|Hgt];
      [done|].
    apply Hbelow in Hgt. congruence.
Qed.

End Threshold.

Section ThresholdRuns.

Import StandIn.
#[local] Existing Instance collaborators.

Lemma search_iteration_decision_witness :
  search_iteration centered centered 4 1000 2 0 = Ok (Grow 3 1).
Proof.
  exact (search_iteration_decision centered centered 4 1000 2 0 _ _ eq_refl).
Defined.

End ThresholdRuns.

(** ** Shapes through the decomposition paths *)

Section Shapes.

Context `{Collaborators}.

Lemma for_range_split {St} (body : St → nat → outcome St) st i a b :
  for_range body st i (a + b)
  = st' ← for_range body st i a; for_range body st' (i + a) b.
Proof.
  revert st i. induction a as [|a IH]; intros st i; cbn [for_range Nat.add].
  - cbn. by rewrite Nat.add_0_r.
  - destruct (body st i) as [st'| |]; cbn [mbind outcome_bind]; [|done..].
    rewrite IH. by rewrite Nat.add_succ_r.
Qed.

Lemma fix_sign_lengths st i st' :
  fix_sign st i = Ok st' →
  length st'.1.1 = length st.1.1 ∧ length st'.1.2 = length st.1.2
  ∧ length st'.2 = length st.2.
Proof.
  destruct st as [[vs ms] fs]. unfold fix_sign.
  destruct (vs !! i) as [col|]; cbn [mbind outcome_bind]; [|done].
  destruct (argmax_abs col) as [k| |]; cbn [mbind outcome_bind]; [|done..].
  destruct (Qltb _ _); [|by intros [= <-]].
  destruct (ms !! i) as [mix|]; cbn [mbind outcome_bind]; [|done].
  intros [= <-]. cbn. by rewrite !length_insert.
Qed.

Lemma for_range_fix_sign_lengths n : ∀ st i st',
  for_range fix_sign st i n = Ok st' →
  length st'.1.1 = length st.1.1 ∧ length st'.1.2 = length st.1.2
  ∧ length st'.2 = length st.2.
Proof.
  induction n as [|n IH]; intros st i st'; cbn [for_range].
  - by intros [= <-].
  - intros (st1 & H1%fix_sign_lengths & H2%IH)%bind_Ok.
    destruct H1 as (? & ? & ?), H2 as (? & ? & ?). repeat split; congruence.
Qed.

Lemma take_indices_length {A} (l : list A) indices r :
  take_indices l indices = Ok r → length r = length indices.
Proof.
  intros Hr%take_indices_Forall2. by rewrite (Forall2_length _ _ _ Hr).
Qed.

Lemma reorder_columns_ncols {A} (a : arr2 A) indices a' :
  reorder_columns a indices = Ok a' → ncols a' = length indices.
Proof.
  unfold reorder_columns, select_columns.
  intros (a0 & (cs & Hcs & [= <-])%bind_Ok & [= <-])%bind_Ok.
  unfold ncols. cbn. rewrite length_reverse. by eapply take_indices_length.
Qed.

(** The normalizer keeps as many spatial factors as temporal ones, as many
    as the solver gave temporal factors. *)
Lemma normalize_ncols eig_vec eig_mix n eig_vec' eig_mix' flipped :
  normalize eig_vec eig_mix n = Ok (eig_vec', eig_mix', flipped) →
  ncols eig_vec' = ncols eig_mix ∧ ncols eig_mix' = ncols eig_mix
  ∧ length flipped = n.
Proof.
  unfold normalize.
  intros (v1 & Hv%reorder_columns_ncols & Hrest)%bind_Ok.
  apply bind_Ok in Hrest as (m1 & Hm%reorder_columns_ncols & Hrest).
  apply bind_Ok in Hrest as ([[vs ms] fs] & Hloop & [= <- <- <-]).
  apply for_range_fix_sign_lengths in Hloop as (Hl1 & Hl2 & Hl3).
  cbn in Hl1, Hl2, Hl3. unfold ncols in *. cbn [columns].
  rewrite argsort_length, length_map in Hv, Hm.
  rewrite length_replicate in Hl3. repeat split; congruence.
Qed.

(** The crop keeps as many spatial factors as temporal ones and as labels,
    when it is given as many of each. *)
Lemma crop_ncols d lag1_full n d' lag1_full' n' :
  crop d lag1_full n = Ok (d', lag1_full', n') →
  ncols (d_eig_vec d) = ncols (d_eig_mix d) →
  length (d_noise d) = ncols (d_eig_mix d) →
  ncols (d_eig_vec d') = ncols (d_eig_mix d')
  ∧ length (d_noise d') = ncols (d_eig_mix d').
Proof.
  unfold crop. destruct (_ <? _); [|by intros [= <- _ _]].
  intros (v1 & Hv%reorder_columns_ncols & Hrest)%bind_Ok _ _.
  apply bind_Ok in Hrest as (m1 & Hm%reorder_columns_ncols & Hrest).
  apply bind_Ok in Hrest as (ns & Hns & Hrest).
  apply bind_Ok in Hrest as (ls & _ & [= <- _ _]).
  unfold reorder in Hns. apply bind_Ok in Hns as (ns0 & Hns & [= <-]).
  apply take_indices_length in Hns.
  unfold ncols, take_columns in *. cbn [d_eig_vec d_eig_mix d_noise columns].
  rewrite !length_take, length_reverse. split; congruence.
Qed.

Lemma search_returns_solver_output fuel vector u shape0 max_iter n inc d n' inc' :
  search fuel vector u shape0 max_iter n inc = Ok (d, n', inc') →
  ∃ k w,
    fast_ica k max_iter w false vector = Ok (d_eig_vec d, d_eig_mix d)
    ∧ d_noise d = (sort_noise (columns (d_eig_mix d))).1.
Proof.
  revert n inc. induction fuel as [|fuel IH]; intros n inc; [done|].
  cbn [search]. intros ([d0|n1 inc1] & Hit & Hrest)%bind_Ok; [|by eapply IH].
  injection Hrest as <- _ _. unfold search_iteration in Hit.
  destruct (fast_ica _ _ _ _ _) as [[eig_vec eig_mix]| |] eqn:Hica;
    cbn [mbind outcome_bind] in Hit; [|done..].
  destruct (sort_noise (columns eig_mix)) as [noise cutoff] eqn:Hnoise.
  assert (d0 = Decomposition eig_vec eig_mix noise cutoff) as ->.
  { repeat match type of Hit with
           | context [if ?b then _ else _] => destruct b
           end; congruence. }
  cbn. rewrite Hnoise. eauto.
Qed.

(** X15.  If the solver yields as many spatial as temporal factors and the
    classifier one label per time course, every dictionary that [project]
    returns, by either path, has [n_components] equal to the number of
    columns of [eig_vec] and of [eig_mix] and to the number of noise
    labels, and keeps the [shape] and [roimask] it was given. *)
Theorem project_keeps_shape_invariants residual_arithmetic fuel
    (h : gmap loc vec) vector shape roimask n_components svd_multiplier
    calc_residuals max_iter c report h' :
  (∀ k mi w f X V M, fast_ica k mi w f X = Ok (V, M) → ncols V = ncols M) →
  (∀ tcs, length (sort_noise tcs).1 = length tcs) →
  project residual_arithmetic fuel h vector shape roimask n_components
    svd_multiplier calc_residuals max_iter = Ok (c, report, h') →
  ncols (eig_vec c) = Ica.n_components c
  ∧ ncols (eig_mix c) = Ica.n_components c
  ∧ (∃ noise, noise_components c = Some noise
              ∧ length noise = Ica.n_components c)
  ∧ Ica.shape c = shape ∧ Ica.roimask c = roimask
  ∧ project_meta c = Some (Ica.n_components c).
Proof.
  intros Hica Hnoise. unfold project.
  intros ([[c0 v] h0] & Hd & ([c1 rep] & Ha & [= <- _ _])%bind_Ok)%bind_Ok.
  assert (c1 = c0) as ->.
  { unfold account_residuals in Ha. destruct calc_residuals.
    - rewrite residual_computation_raises in Ha. by injection Ha as <- _.
    - by injection Ha as <- _. }
  clear Ha. unfold decompose in Hd.
  apply bind_Ok in Hd as ([X mean] & _ & Hd).
  apply bind_Ok in Hd as ([r h1] & Hpath & [= <- _ _]).
  cbn [with_project_meta assemble eig_vec eig_mix Ica.n_components
       noise_components Ica.shape Ica.roimask project_meta].
  assert (ncols (p_eig_vec r) = ncols (p_eig_mix r)
          ∧ length (p_noise r) = ncols (p_eig_mix r)) as [Hvm Hnm].
  { destruct n_components as [n|].
    - apply bind_Ok in Hpath as (r0 & Hfixed & [= <- _]).
      unfold fixed_path in Hfixed.
      apply bind_Ok in Hfixed as ([V M] & _ & Hfixed).
      apply bind_Ok in Hfixed as ([[V' M'] fl] & Hnorm & Hfixed).
      apply normalize_ncols in Hnorm as (Hv & Hm & _).
      pose proof (Hnoise (columns M')) as Hlen.
      destruct (sort_noise (columns M')) as [noise cutoff].
      injection Hfixed as <-. cbn in *. unfold ncols in *. split; congruence.
    - unfold adaptive_path in Hpath.
      apply bind_Ok in Hpath as ([u ev] & _ & Hpath).
      destruct (approximate_svd_linearity_transition _ _) as [h2 cross_1].
      apply bind_Ok in Hpath as (k & _ & Hpath).
      apply bind_Ok in Hpath as ([[d n] inc] & Hsearch & Hpath).
      apply bind_Ok in Hpath as ([[d' lag] n'] & Hcrop & [= <- _]).
      cbn [p_eig_vec p_eig_mix p_noise].
      apply search_returns_solver_output in Hsearch as (k' & w & Hrun & Hlabels).
      apply (crop_ncols _ _ _ _ _ _ Hcrop).
      + by eapply Hica.
      + rewrite Hlabels. apply Hnoise. }
  repeat split; try done.
  exists (p_noise r). split; [done | congruence].
Qed.

Lemma fix_sign_runs (vs ms : list vec) (fs : list Z) i :
  i < length vs → i < length ms → Forall (λ col, col ≠ []) vs →
  ∃ st', fix_sign (vs, ms, fs) i = Ok st' ∧ Forall (λ col, col ≠ []) st'.1.1.
Proof.
  intros Hv Hm Hne. unfold fix_sign.
  destruct (lookup_lt_is_Some_2 vs i Hv) as [col Hcol].
  destruct (lookup_lt_is_Some_2 ms i Hm) as [mix Hmix].
  rewrite Hcol. cbn [mbind outcome_bind].
  assert (col ≠ []) as Hcne.
  { rewrite Forall_forall in Hne. apply Hne. by eapply list_elem_of_lookup_2. }
  destruct col as [|a col]; [done|]. cbn [argmax_abs mbind outcome_bind].
  destruct (Qltb _ _); [|by eauto].
  rewrite Hmix. cbn [mbind outcome_bind]. eexists. split; [reflexivity|].
  cbn. by apply Forall_insert.
Qed.

Lemma for_range_fix_sign_runs n : ∀ (vs ms : list vec) (fs : list Z) i,
  i + n ≤ length vs → i + n ≤ length ms → Forall (λ col, col ≠ []) vs →
  ∃ st', for_range fix_sign (vs, ms, fs) i n = Ok st'.
Proof.
  induction n as [|n IH]; intros vs ms fs i Hv Hm Hne; cbn [for_range];
    [by eauto|].
  destruct (fix_sign_runs vs ms fs i) as ([[vs1 ms1] fs1] & Hstep & Hne1);
    [lia..|done|].
  rewrite Hstep. cbn [mbind outcome_bind].
  apply fix_sign_lengths in Hstep as (H1 & H2 & _). cbn in H1, H2, Hne1.
  apply IH; [lia..|done].
Qed.

(** X16.  When the solver yields fewer factors than the count that was
    asked for (each spatial factor with at least one location), the sign
    loop of the fixed-count path reads past the last factor and the
    normalizer raises [IndexError]. *)
Theorem normalize_raises_on_fewer_factors eig_vec eig_mix n_components :
  ncols eig_vec = ncols eig_mix → ncols eig_mix < n_components →
  Forall (λ col, col ≠ []) (columns eig_vec) →
  normalize eig_vec eig_mix n_components = Raise IndexError.
Proof.
  intros Hv Hlt Hne. unfold ncols in Hv, Hlt.
  set (k := length (columns eig_mix)) in *.
  set (ev_sort := argsort (map Np.var (columns eig_mix))).
  assert (Forall (λ i, i < k) ev_sort) as Hrange.
  { apply argsort_in_range. rewrite length_map. fold k. lia. }
  assert (length ev_sort = k) as Hlen.
  { unfold ev_sort. by rewrite argsort_length, length_map. }
  destruct (take_indices_in_range (columns eig_vec) ev_sort) as [vs Hvs];
    [by rewrite Hv|].
  destruct (take_indices_in_range (columns eig_mix) ev_sort) as [ms Hms];
    [done|].
  unfold normalize, reorder_columns, select_columns. fold ev_sort.
  rewrite Hvs, Hms. cbn [mbind outcome_bind nrows columns].
  pose proof (take_indices_length _ _ _ Hvs) as Hvl.
  pose proof (take_indices_length _ _ _ Hms) as Hml.
  assert (Forall (λ col, col ≠ []) (reverse vs)) as Hne'.
  { apply Forall_reverse. apply Forall_forall. intros col Hin.
    apply list_elem_of_lookup in Hin as [j Hj].
    apply take_indices_Forall2 in Hvs.
    destruct (Forall2_lookup_r _ _ _ _ _ Hvs Hj) as (i & _ & Hi).
    rewrite Forall_forall in Hne. apply Hne. by eapply list_elem_of_lookup_2. }
  replace n_components with (k + S (n_components - k - 1)) at 2 by lia.
  rewrite for_range_split.
  destruct (for_range_fix_sign_runs k (reverse vs) (reverse ms)
              (replicate n_components 1%Z) 0)
    as [[[vs' ms'] fs'] Hloop]; [rewrite length_reverse; lia..|done|].
  rewrite Hloop. cbn [mbind outcome_bind].
  apply for_range_fix_sign_lengths in Hloop as (Hl1 & _ & _).
  cbn in Hl1. rewrite length_reverse in Hl1.
  cbn [for_range Nat.add].
  assert (fix_sign (vs', ms', fs') k = Raise IndexError) as ->; [|done].
  unfold fix_sign. by rewrite (lookup_ge_None_2 vs' k) by lia.
Qed.

End Shapes.

Section AllNoise.

Context `{Collaborators}.

Lemma noise_sum_all (noise : list bool) :
  Forall (λ b, b = true) noise → noise_sum noise = length noise.
Proof.
  unfold noise_sum. induction 1 as [|b noise -> _ IH]; cbn; [done|]. by rewrite IH.
Qed.

(** X17.  When every component of the last pass is labelled noise, the
    crop cuts the decomposition down to no component at all, and on a
    dictionary assembled from it [rebuild] raises [IndexError], whatever
    its arguments. *)
Theorem all_noise_leaves_nothing_to_rebuild d lag1_full n :
  0 < n → ncols (d_eig_vec d) = n → ncols (d_eig_mix d) = n →
  length (d_noise d) = n → length lag1_full = n →
  Forall (λ b, b = true) (d_noise d) →
  ∃ d' lag1_full',
    crop d lag1_full n = Ok (d', lag1_full', 0)
    ∧ ncols (d_eig_vec d') = 0 ∧ ncols (d_eig_mix d') = 0 ∧ d_noise d' = []
    ∧ ∀ mean roimask shape r artifact_components kw,
        p_eig_vec r = d_eig_vec d' →
        rebuild (assemble mean roimask shape r) artifact_components kw
        = Raise IndexError.
Proof.
  intros Hpos Hv Hm Hnoise Hlag Hall. unfold ncols in Hv, Hm.
  unfold crop. rewrite reduced_n_components_floor, noise_sum_all, Nat.sub_diag by done.
  change (5 * 0 / 4) with 0.
  destruct (Nat.ltb_spec 0 n) as [_|]; [|lia].
  set (ev_sort := argsort (map Np.var (columns (d_eig_mix d)))).
  assert (Forall (λ i, i < n) ev_sort) as Hrange.
  { apply argsort_in_range. rewrite length_map. lia. }
  destruct (take_indices_in_range (columns (d_eig_vec d)) ev_sort) as [vs Hvs];
    [by rewrite Hv|].
  destruct (take_indices_in_range (columns (d_eig_mix d)) ev_sort) as [ms Hms];
    [by rewrite Hm|].
  destruct (take_indices_in_range (d_noise d) ev_sort) as [ns Hns];
    [by rewrite Hnoise|].
  destruct (take_indices_in_range lag1_full ev_sort) as [ls Hls];
    [by rewrite Hlag|].
  unfold reorder_columns, select_columns, reorder.
  rewrite Hvs, Hms, Hns, Hls. cbn [mbind outcome_bind nrows columns].
  eexists _, _. split; [reflexivity|].
  cbn [d_eig_vec d_eig_mix d_noise take_columns take]. unfold ncols. cbn [columns].
  repeat split; try done.
  intros mean roimask shape r art kw Hr. unfold rebuild.
  cbn [assemble Ica.shape eig_vec]. rewrite Hr.
  by destruct shape as [[t x] y].
Qed.

End AllNoise.

Section ShapesRuns.

Import StandIn.
#[local] Existing Instance collaborators.

Lemma project_keeps_shape_invariants_witness :
  ∃ c report h',
    project no_arithmetic 1 ∅ vector (4, 2, 3) None None (Some 5) true 1000
    = Ok (c, report, h')
    ∧ ncols (eig_vec c) = Ica.n_components c
    ∧ ncols (eig_mix c) = Ica.n_components c.
Proof.
  destruct (project no_arithmetic 1 ∅ vector (4, 2, 3) None None (Some 5) true 1000)
    as [[[c report] h']| |] eqn:Hp; [|vm_compute in Hp; discriminate..].
  assert (∀ k mi w f X V M, fast_ica k mi w f X = Ok (V, M) → ncols V = ncols M)
    as Hica.
  { intros k mi w f X V M [= <- <-]. unfold ncols. cbn [columns].
    by rewrite !length_replicate. }
  destruct (project_keeps_shape_invariants _ _ _ _ _ _ _ _ _ _ _ _ _
              Hica (λ tcs, length_map _ tcs) Hp)
    as (Hv & Hm & _).
  exists c, report, h'. split; [done|]. split; [exact Hv | exact Hm].
Defined.

Lemma normalize_raises_on_fewer_factors_witness :
  normalize two_factors.1 two_factors.2 3 = Raise IndexError.
Proof.
  apply normalize_raises_on_fewer_factors; [reflexivity | cbn; lia|].
  repeat constructor; discriminate.
Defined.

(** Four components, all of them labelled noise. *)
Lemma all_noise_leaves_nothing_to_rebuild_witness :
  ∃ d' lag1_full',
    crop (Decomposition (d_eig_vec over_grown) (d_eig_mix over_grown)
            [true; true; true; true] 0%Q) [0; 0; 0; 0]%Q 4
    = Ok (d', lag1_full', 0)
    ∧ ncols (d_eig_vec d') = 0.
Proof.
  destruct (all_noise_leaves_nothing_to_rebuild
              (Decomposition (d_eig_vec over_grown) (d_eig_mix over_grown)
                 [true; true; true; true] 0%Q) [0; 0; 0; 0]%Q 4)
    as (d' & lag' & Hcrop & Hcols & _); try reflexivity; [lia|repeat constructor|].
  exists d', lag'. split; [exact Hcrop | exact Hcols].
Defined.

End ShapesRuns.

(** ** Component maps *)

Section Eigenbrain.

Lemma put_length target : ∀ indices values,
  length (put target indices values) = length target.
Proof.
  unfold put. intros indices values.
  generalize (zip indices values). intros l. revert target.
  induction l as [|iv l IH]; intros target; cbn; [done|].
  by rewrite IH, length_insert.
Qed.

Lemma put_cons target i v indices values :
  put target (i :: indices) (v :: values) = put (<[i := Some v]> target) indices values.
Proof. reflexivity. Qed.

Lemma put_lookup_other p : ∀ indices values target,
  p ∉ indices → put target indices values !! p = target !! p.
Proof.
  induction indices as [|i indices IH]; intros values target Hp; [done|].
  destruct values as [|v values]; [done|].
  rewrite put_cons, IH by set_solver.
  apply list_lookup_insert_ne. set_solver.
Qed.

Lemma put_lookup_written : ∀ indices values target j p v,
  NoDup indices → indices !! j = Some p → values !! j = Some v →
  p < length target →
  put target indices values !! p = Some (Some v).
Proof.
  induction indices as [|i indices IH]; intros values target j p v Hnd Hj Hv Hp; [done|].
  destruct values as [|v0 values]; [done|].
  apply NoDup_cons in Hnd as [Hi Hnd]. rewrite put_cons.
  destruct j as [|j]; cbn in Hj, Hv.
  - injection Hj as ->. injection Hv as ->.
    rewrite put_lookup_other by done.
    by apply list_lookup_insert_eq.
  - eapply IH; eauto. by rewrite length_insert.
Qed.

Lemma where_from_ge {A} (p : A → bool) k (l : list A) :
  Forall (λ i, k ≤ i) (where_from p k l).
Proof.
  revert k. induction l as [|a l IH]; intros k; cbn; [constructor|].
  assert (Forall (λ i, k ≤ i) (where_from p (S k) l)) as IH'.
  { eapply Forall_impl; [apply (IH (S k))|]. cbn. lia. }
  destruct (p a); [constructor; [lia|done] | done].
Qed.

Lemma where_from_NoDup {A} (p : A → bool) k (l : list A) :
  NoDup (where_from p k l).
Proof.
  revert k. induction l as [|a l IH]; intros k; cbn; [constructor|].
  destruct (p a); [|done]. constructor; [|done].
  intros Hin. pose proof (where_from_ge p (S k) l) as Hge.
  rewrite Forall_forall in Hge. apply Hge in Hin. lia.
Qed.

Lemma where_from_elem {A} (p : A → bool) k (l : list A) i :
  i ∈ where_from p k l ↔ ∃ v, k ≤ i ∧ l !! (i - k) = Some v ∧ p v = true.
Proof.
  revert k. induction l as [|a l IH]; intros k; cbn.
  - split; [by intros ?%elem_of_nil | by intros (v & _ & ? & _)].
  - assert (i ∈ where_from p (S k) l ↔
            ∃ v, k < i ∧ (a :: l) !! (i - k) = Some v ∧ p v = true) as IH'.
    { rewrite IH. split; intros (v & Hk & Hl & Hv); exists v.
      - replace (i - k) with (S (i - S k)) by lia. done.
      - replace (i - k) with (S (i - S k)) in Hl by lia. done. }
    destruct (p a) eqn:Ha.
    + rewrite elem_of_cons, IH'. split.
      * intros [->|(v & Hk & Hl & Hv)].
        -- exists a. rewrite Nat.sub_diag. done.
        -- exists v. split; [lia|done].
      * intros (v & Hk & Hl & Hv).
        destruct (decide (i = k)) as [->|Hne]; [by left|].
        right. exists v. split; [lia|done].
    + rewrite IH'. split; intros (v & Hk & Hl & Hv); exists v.
      * split; [lia|done].
      * split; [|done]. destruct (decide (i = k)) as [->|Hne]; [|lia].
        rewrite Nat.sub_diag in Hl. cbn in Hl. congruence.
Qed.

Lemma take_in_turn (values : vec) :
  map (λ r, nth (r mod length values) values 0%Q) (seq 0 (length values)) = values.
Proof.
  apply list_eq. intros i. rewrite list_lookup_fmap.
  destruct (decide (i < length values)) as [Hi|Hi].
  - rewrite lookup_seq_lt by done. cbn.
    rewrite Nat.mod_small by done.
    destruct (lookup_lt_is_Some_2 values i Hi) as [v Hv].
    rewrite Hv. f_equal. by apply nth_lookup_Some with (d := 0%Q) in Hv.
  - rewrite lookup_seq_ge by lia. cbn. symmetry. apply lookup_ge_None. lia.
Qed.

Lemma flat_assign_put target indices values :
  length values = length indices →
  flat_assign target indices values = put target indices values.
Proof.
  intros Hlen. unfold flat_assign.
  destruct (Nat.eqb_spec (length values) 0) as [H0|H0].
  - destruct values; [|done]. destruct indices; done.
  - by rewrite <- Hlen, take_in_turn.
Qed.

Lemma take_indices_lookups {A} (l : list A) : ∀ indices r,
  length r = length indices →
  (∀ j p, indices !! j = Some p → l !! p = r !! j) →
  take_indices l indices = Ok r.
Proof.
  induction indices as [|i indices IH]; intros r Hlen Hl.
  - by destruct r.
  - destruct r as [|v r]; [done|]. cbn.
    rewrite (Hl 0 i eq_refl). cbn.
    rewrite (IH r); [done|by injection Hlen|].
    intros j p Hj. apply (Hl (S j) p Hj).
Qed.

(** X18.  With a mask, reading the rebuilt map at the mask's pixels gives
    the component back, and every other entry of the map is not a number:
    the inverse of the crop [data[mask]] that [project] applies. *)
Theorem eigenbrain_round_trip eig_vec index roimask eigb_shape component :
  length (mask_flat roimask) = (mask_shape roimask).1 * (mask_shape roimask).2 →
  (0 ≤ index)%Z →
  columns eig_vec !! Z.to_nat index = Some component →
  length component = length (where_ (Z.eqb 1) (mask_flat roimask)) →
  ∃ m, rebuild_eigenbrain eig_vec (Some index) (Some roimask) eigb_shape false
       = Ok (One m)
     ∧ map_shape m = mask_shape roimask
     ∧ length (map_flat m) = length (mask_flat roimask)
     ∧ take_indices (map_flat m) (where_ (Z.eqb 1) (mask_flat roimask))
       = Ok (Some <$> component)
     ∧ ∀ p v, mask_flat roimask !! p = Some v → v ≠ 1%Z → map_flat m !! p = Some None.
Proof.
  intros Hwf Hindex Hcol Hlen.
  unfold rebuild_eigenbrain, rebuild_eigenbrain_one.
  destruct (mask_shape roimask) as [h w] eqn:Hshape. cbn [fst snd] in Hwf.
  assert (getitem_int (columns eig_vec) index = Ok component) as Hget.
  { unfold getitem_int.
    destruct (Z.ltb_spec index 0) as [?|_]; [lia|].
    destruct (Z.ltb_spec index 0) as [?|_]; [lia|]. by rewrite Hcol. }
  cbn [assert bool_decide mbind outcome_bind].
  rewrite bool_decide_eq_true_2 by eauto.
  cbn [orb assert mbind outcome_bind]. rewrite Hget. cbn [mbind outcome_bind].
  eexists. split; [reflexivity|]. cbn [map_shape map_flat].
  rewrite flat_assign_put by done.
  set (maskind := where_ (Z.eqb 1) (mask_flat roimask)) in *.
  split; [done|]. split; [by rewrite put_length, length_replicate|].
  split.
  - apply take_indices_lookups; [by rewrite length_fmap|].
    intros j p Hj. rewrite list_lookup_fmap.
    destruct (lookup_lt_is_Some_2 component j) as [v Hv].
    { rewrite Hlen. by eapply lookup_lt_Some. }
    rewrite Hv. cbn.
    eapply put_lookup_written; eauto; [apply where_from_NoDup|].
    rewrite length_replicate, <- Hwf.
    pose proof (where_from_in_range (Z.eqb 1) 0 (mask_flat roimask)) as Hr.
    rewrite Forall_forall in Hr. apply Hr. by eapply list_elem_of_lookup_2.
  - intros p v Hp Hv. rewrite put_lookup_other.
    + apply lookup_replicate_2. rewrite <- Hwf. by eapply lookup_lt_Some.
    + unfold maskind, where_. rewrite where_from_elem.
      intros (v' & _ & Hp' & Hv'). rewrite Nat.sub_0_r in Hp'.
      apply Z.eqb_eq in Hv'. congruence.
Qed.

(** X19.  An index counted from the end addresses the same component as
    the index counted from the start. *)
Theorem eigenbrain_index_from_the_end eig_vec i roimask eigb_shape :
  i < ncols eig_vec →
  rebuild_eigenbrain eig_vec (Some (Z.of_nat i - Z.of_nat (ncols eig_vec))%Z)
    roimask eigb_shape false
  = rebuild_eigenbrain eig_vec (Some (Z.of_nat i)) roimask eigb_shape false.
Proof.
  intros Hi. unfold ncols in *.
  assert (getitem_int (columns eig_vec)
            (Z.of_nat i - Z.of_nat (length (columns eig_vec)))%Z
          = getitem_int (columns eig_vec) (Z.of_nat i)) as Hget.
  { unfold getitem_int.
    destruct (Z.ltb_spec (Z.of_nat i - Z.of_nat (length (columns eig_vec))) 0)%Z; [|lia].
    destruct (Z.ltb_spec (Z.of_nat i) 0); [lia|].
    destruct (Z.ltb_spec (Z.of_nat i - Z.of_nat (length (columns eig_vec))
                          + Z.of_nat (length (columns eig_vec))) 0)%Z; [lia|].
    destruct (Z.ltb_spec (Z.of_nat i) 0); [lia|].
    by replace (Z.of_nat i - Z.of_nat (length (columns eig_vec))
                + Z.of_nat (length (columns eig_vec)))%Z with (Z.of_nat i) by lia. }
  unfold rebuild_eigenbrain, rebuild_eigenbrain_one.
  destruct (assert _); cbn [mbind outcome_bind]; [|done..].
  destruct roimask as [roimask|]; [destruct (mask_shape roimask)|]; by rewrite Hget.
Qed.

(** X20.  An index outside the components raises [IndexError], whenever a
    mask or a shape is given. *)
Theorem eigenbrain_index_out_of_range eig_vec index roimask eigb_shape :
  is_Some roimask ∨ is_Some eigb_shape →
  (index < - Z.of_nat (ncols eig_vec) ∨ Z.of_nat (ncols eig_vec) ≤ index)%Z →
  rebuild_eigenbrain eig_vec (Some index) roimask eigb_shape false = Raise IndexError.
Proof.
  intros Hgiven Hout. unfold ncols in *.
  assert (getitem_int (columns eig_vec) index = Raise IndexError) as Hget.
  { unfold getitem_int.
    destruct (Z.ltb_spec index 0).
    - destruct (Z.ltb_spec (index + Z.of_nat (length (columns eig_vec))) 0)%Z; [done|lia].
    - destruct (Z.ltb_spec index 0); [lia|].
      rewrite (proj2 (lookup_ge_None _ _)); [done|lia]. }
  unfold rebuild_eigenbrain, rebuild_eigenbrain_one.
  assert (bool_decide (is_Some roimask) || bool_decide (is_Some eigb_shape) = true) as ->.
  { destruct Hgiven as [H|H].
    - by rewrite (bool_decide_eq_true_2 _ H).
    - rewrite (bool_decide_eq_true_2 _ H). apply orb_true_r. }
  cbn [assert mbind outcome_bind].
  destruct roimask as [roimask|]; [destruct (mask_shape roimask)|]; by rewrite Hget.
Qed.

(** X21.  Without a mask the bulk rebuild never returns a result: the
    reshape is given a row of the array where a dimension is expected. *)
Theorem bulk_without_mask_never_returns eig_vec index eigb_shape :
  raises (rebuild_eigenbrain eig_vec index None eigb_shape true).
Proof.
  unfold rebuild_eigenbrain, rebuild_eigenbrain_bulk.
  destruct eigb_shape as [shape|].
  - cbn. destruct (nrows eig_vec) as [|[|n]]; cbn; eexists; reflexivity.
  - cbn. eexists; reflexivity.
Qed.

Lemma mapM_lookup {A B} (f : A → outcome B) : ∀ (l : list A) ks i a,
  mapM f l = Ok ks → l !! i = Some a → ∃ b, ks !! i = Some b ∧ f a = Ok b.
Proof.
  induction l as [|x l IH]; intros ks i a Hm Hi; [done|].
  rewrite mapM_cons in Hm.
  apply bind_Ok in Hm as (b & Hb & Hm).
  apply bind_Ok in Hm as (bs & Hbs & [= <-]).
  destruct i as [|i]; cbn in Hi.
  - injection Hi as ->. eauto.
  - apply (IH bs i a Hbs Hi).
Qed.

Lemma mapM_returns {A B} (f : A → outcome B) (g : A → B) : ∀ (l : list A),
  Forall (λ a, f a = Ok (g a)) l → mapM f l = Ok (g <$> l).
Proof.
  induction 1 as [|a l Ha _ IH]; [done|].
  by rewrite mapM_cons, Ha, IH.
Qed.

(** X22.  With a mask whose pixels are as many as the rows of the
    components, the bulk rebuild returns one map per component, and each
    is the map that the rebuild of that one component returns. *)
Theorem bulk_agrees_with_single eig_vec index roimask eigb_shape :
  nrows eig_vec = length (where_ (Z.eqb 1) (mask_flat roimask)) →
  Forall (λ component, length component = nrows eig_vec) (columns eig_vec) →
  ∃ ms, rebuild_eigenbrain eig_vec index (Some roimask) eigb_shape true = Ok (Stack ms)
      ∧ length ms = ncols eig_vec
      ∧ ∀ i m, ms !! i = Some m →
          rebuild_eigenbrain eig_vec (Some (Z.of_nat i)) (Some roimask) eigb_shape false
          = Ok (One m).
Proof.
  intros Hrows Hcols.
  unfold rebuild_eigenbrain, rebuild_eigenbrain_bulk, rebuild_eigenbrain_one.
  rewrite bool_decide_eq_true_2 by eauto.
  cbn [orb assert mbind outcome_bind].
  destruct (mask_shape roimask) as [h w].
  set (maskind := where_ (Z.eqb 1) (mask_flat roimask)) in *.
  rewrite Hrows, Nat.eqb_refl. cbn [orb negb].
  rewrite (mapM_returns _
             (λ component, Map2 (h, w) (put (replicate (h * w) None) maskind component))).
  2:{ eapply Forall_impl; [exact Hcols|]. intros component Hc. cbn beta in *.
      rewrite broadcast_to_same by congruence. done. }
  cbn [mbind outcome_bind]. eexists. split; [reflexivity|].
  split; [by rewrite length_fmap|].
  intros i m Hm. rewrite list_lookup_fmap in Hm.
  destruct (columns eig_vec !! i) as [component|] eqn:Hi; [|done].
  injection Hm as <-.
  assert (getitem_int (columns eig_vec) (Z.of_nat i) = Ok component) as ->.
  { unfold getitem_int.
    destruct (Z.ltb_spec (Z.of_nat i) 0); [lia|].
    destruct (Z.ltb_spec (Z.of_nat i) 0); [lia|].
    by rewrite Nat2Z.id, Hi. }
  cbn [mbind outcome_bind]. rewrite flat_assign_put; [done|].
  rewrite Forall_forall in Hcols. rewrite (Hcols component); [done|].
  by eapply list_elem_of_lookup_2.
Qed.

End Eigenbrain.

(** ** Mean time courses of regions *)

Section Regions.

Lemma roi_labels_small mask :
  Forall (λ label, label < 2 ^ 16) (omap id mask) →
  roi_labels mask = merge_sort Nat.le (remove_dups (omap id mask)).
Proof.
  intros Hsmall. unfold roi_labels.
  etransitivity; [|apply (list_fmap_id (merge_sort Nat.le (remove_dups (omap id mask))))].
  apply (Forall_fmap_ext_1 (λ label, label mod 2 ^ 16) id).
  rewrite Forall_forall in Hsmall. apply Forall_forall. intros label Hl.
  rewrite merge_sort_Permutation in Hl.
  apply Nat.mod_small, Hsmall. by apply elem_of_remove_dups.
Qed.

Lemma roi_labels_elem mask label :
  Forall (λ label, label < 2 ^ 16) (omap id mask) →
  label ∈ roi_labels mask ↔ Some label ∈ mask.
Proof.
  intros Hsmall. rewrite roi_labels_small by done.
  rewrite merge_sort_Permutation, elem_of_remove_dups, list_elem_of_omap.
  split; [intros (v & Hv & Hid); cbn in Hid; by subst | intros Hl; by exists (Some label)].
Qed.


Lemma max_list_same (l k : list nat) :
  (∀ n, n ∈ l ↔ n ∈ k) → max_list l = max_list k.
Proof.
  intros Hlk. destruct l as [|a l], k as [|b k]; [done|..].
  - assert (b ∈ @nil nat) as H by (apply Hlk; by left). by apply elem_of_nil in H.
  - assert (a ∈ @nil nat) as H by (apply Hlk; by left). by apply elem_of_nil in H.
  - apply Nat.le_antisymm; apply max_list_elem_of_le.
    + apply Hlk, max_list_elem_of. done.
    + apply Hlk, max_list_elem_of. done.
Qed.

Lemma roi_labels_max mask :
  Forall (λ label, label < 2 ^ 16) (omap id mask) →
  max_list (roi_labels mask) = max_list (omap id mask).
Proof.
  intros Hsmall. apply max_list_same. intros n.
  rewrite roi_labels_elem, list_elem_of_omap by done.
  split; [intros Hl; by exists (Some n) | intros (v & Hv & Hid); cbn in Hid; by subst].
Qed.

Lemma roi_trace_Ok eig_vec eig_mix domain_index trace :
  roi_trace eig_vec eig_mix domain_index = Ok trace →
  ∃ rows, select_rows eig_vec domain_index = Ok rows
        ∧ trace = map mean_or_nan (dot_T rows eig_mix)
        ∧ length trace = nrows eig_mix.
Proof.
  unfold roi_trace. destruct (negb _); [done|].
  intros (rows & Hrows & Htrace)%bind_Ok.
  destruct (Nat.eqb _ _); [|done]. injection Htrace as <-.
  exists rows. repeat split; [done|].
  unfold dot_T. by rewrite !length_map, length_seq.
Qed.

(** One pass of the loop over the labels. *)
Lemma roi_pass_Ok eig_vec eig_mix maskind mask include_zero tcs i tcs' :
  roi_pass eig_vec eig_mix maskind mask include_zero tcs i = Ok tcs' →
  (i = 0 ∧ include_zero = false ∧ tcs' = tcs)
  ∨ ((i ≠ 0 ∨ include_zero = true)
     ∧ ∃ seen rows,
         match maskind with
         | Some maskind => take_indices mask maskind
         | None => Ok mask
         end = Ok seen
         ∧ select_rows eig_vec (where_ (λ v, bool_decide (v = Some i)) seen) = Ok rows
         ∧ length (map mean_or_nan (dot_T rows eig_mix)) = nrows eig_mix
         ∧ tcs' = <[i := map mean_or_nan (dot_T rows eig_mix)]> tcs).
Proof.
  unfold roi_pass.
  destruct (Nat.eqb_spec i 0) as [->|Hi], include_zero; cbn [andb negb].
  2:{ intros [= <-]. by left. }
  all: intros (seen & Hseen & (trace & Htrace & [= <-])%bind_Ok)%bind_Ok.
  all: apply roi_trace_Ok in Htrace as (rows & Hrows & -> & Hlen).
  all: right; split; [auto|]; exists seen, rows; done.
Qed.

Lemma for_each_cons {St A} (body : St → A → outcome St) st a (l : list A) :
  for_each body st (a :: l) = (st' ← body st a; for_each body st' l).
Proof. reflexivity. Qed.

Lemma roi_loop_frame eig_vec eig_mix maskind mask include_zero : ∀ labels tcs tcs',
  for_each (roi_pass eig_vec eig_mix maskind mask include_zero) tcs labels = Ok tcs' →
  length tcs' = length tcs
  ∧ (Forall (λ tc, length tc = nrows eig_mix) tcs →
     Forall (λ tc, length tc = nrows eig_mix) tcs')
  ∧ ∀ j, j ∉ labels → tcs' !! j = tcs !! j.
Proof.
  induction labels as [|i labels IH]; intros tcs tcs'.
  - intros [= <-]. done.
  - rewrite for_each_cons. intros (tcs1 & Hpass & Hrest)%bind_Ok.
    apply IH in Hrest as (Hlen & Hall & Hframe).
    apply roi_pass_Ok in Hpass
      as [(_ & _ & ->)|(_ & seen & rows & _ & _ & Htrace & ->)].
    + repeat split; [done..|]. intros j Hj. apply Hframe.
      intros Hin. apply Hj. by right.
    + split; [by rewrite Hlen, length_insert|]. split.
      * intros Htcs. by apply Hall, Forall_insert.
      * intros j Hj. rewrite Hframe by (intros Hin; apply Hj; by right).
        apply list_lookup_insert_ne. intros ->. apply Hj. by left.
Qed.


Lemma roi_signal_factors_rows c filter invert_artifact include_noise ev em :
  roi_signal_factors c filter invert_artifact include_noise = Ok (ev, em) →
  nrows em = nrows (eig_mix c).
Proof.
  unfold roi_signal_factors.
  destruct filter, (Ica.artifact_components c) as [stored|]; try by intros [= <- <-].
  intros (art & _ & Hsel)%bind_Ok.
  apply bind_Ok in Hsel as (ev' & _ & Hsel).
  apply bind_Ok in Hsel as (em' & Hem & [= <- <-]).
  unfold select_columns in Hem.
  by apply bind_Ok in Hem as (cs & _ & [= <-]).
Qed.

(** The parts of a run that returns. *)
Lemma rebuild_mean_roi_timecourse_Ok c mask include_zero filter invert_artifact
    include_noise tcs :
  rebuild_mean_roi_timecourse c mask include_zero filter invert_artifact include_noise
  = Ok tcs →
  ∃ ev em looped,
    roi_signal_factors c filter invert_artifact include_noise = Ok (ev, em)
    ∧ roi_labels mask ≠ []
    ∧ for_each (roi_pass ev em ((λ flat, where_ (Z.eqb 1) flat) <$> roimask c)
                  mask include_zero)
        (replicate (max_list (roi_labels mask) + 1) (replicate (nrows em) None))
        (roi_labels mask) = Ok looped
    ∧ tcs = if include_zero then looped else drop 1 looped.
Proof.
  unfold rebuild_mean_roi_timecourse.
  intros ([ev em] & Hfactors & Hrest)%bind_Ok.
  apply bind_Ok in Hrest as (n_indices & Hn & Hrest).
  apply bind_Ok in Hrest as (looped & Hloop & [= <-]).
  destruct (roi_labels mask) as [|l ls] eqn:Hlabels; [done|].
  injection Hn as <-. exists ev, em, looped. done.
Qed.

(** X23.  A returned array has one row per label from zero to the largest
    label of the mask (without the row of label zero when it is left out),
    each row has one entry per frame, and the row of a label that the mask
    does not hold is not a number throughout. *)
Theorem roi_timecourses_shape c mask include_zero filter invert_artifact include_noise tcs :
  Forall (λ label, label < 2 ^ 16 - 1) (omap id mask) →
  rebuild_mean_roi_timecourse c mask include_zero filter invert_artifact include_noise
  = Ok tcs →
  let first := if include_zero then 0 else 1 in
  length tcs = max_list (omap id mask) + 1 - first
  ∧ Forall (λ tc, length tc = nrows (eig_mix c)) tcs
  ∧ ∀ label, first ≤ label → label ≤ max_list (omap id mask) → Some label ∉ mask →
      tcs !! (label - first) = Some (replicate (nrows (eig_mix c)) None).
Proof.
  intros Hsmall' Hrun first.
  assert (Forall (λ label, label < 2 ^ 16) (omap id mask)) as Hsmall.
  { eapply Forall_impl; [exact Hsmall'|]. intros n Hn.
    apply (Nat.lt_le_trans _ _ _ Hn), Nat.le_sub_l. }
  apply rebuild_mean_roi_timecourse_Ok in Hrun
    as (ev & em & looped & Hfactors & _ & Hloop & ->).
  apply roi_signal_factors_rows in Hfactors as Hrows.
  rewrite roi_labels_max in Hloop by done.
  apply roi_loop_frame in Hloop as (Hlen & Hall & Hframe).
  rewrite length_replicate in Hlen. rewrite Hrows in *.
  assert (Forall (λ tc, length tc = nrows (eig_mix c)) looped) as Hlooped.
  { apply Hall, Forall_replicate. apply length_replicate. }
  assert (∀ label, label ≤ max_list (omap id mask) → Some label ∉ mask →
          looped !! label = Some (replicate (nrows (eig_mix c)) None)) as Hnan.
  { intros label Hle Hnot. rewrite Hframe by (by rewrite roi_labels_elem).
    apply lookup_replicate_2. lia. }
  subst first. destruct include_zero.
  - rewrite Nat.sub_0_r. repeat split; [done..|].
    intros label _ Hle Hnot. rewrite Nat.sub_0_r. by apply Hnan.
  - split; [rewrite length_drop; lia|]. split; [by apply Forall_drop|].
    intros label Hfirst Hle Hnot. rewrite lookup_drop.
    replace (1 + (label - 1)) with label by lia. by apply Hnan.
Qed.


(** X25.  A mask without a label (empty, or not a number everywhere) raises
    [ValueError] once the components are selected: the largest label of an
    empty array is asked for. *)
Theorem roi_timecourse_without_labels c mask include_zero filter invert_artifact
    include_noise :
  Forall (λ v, v = None) mask →
  returns (roi_signal_factors c filter invert_artifact include_noise) →
  rebuild_mean_roi_timecourse c mask include_zero filter invert_artifact include_noise
  = Raise ValueError.
Proof.
  intros Hnan [[ev em] Hfactors]. unfold rebuild_mean_roi_timecourse.
  rewrite Hfactors. cbn [mbind outcome_bind].
  assert (omap id mask = []) as Hnone.
  { induction Hnan as [|v mask -> _ IH]; [done|]. exact IH. }
  unfold roi_labels. rewrite Hnone. reflexivity.
Qed.

Lemma merge_noise (artifact : list Z) : ∀ noise : list bool,
  length noise = length artifact →
  Forall (λ a, a = 0%Z ∨ a = 1%Z) artifact →
  iadd artifact (map b2z noise)
  = Ok (zip_with (λ a n, (a + b2z n)%Z) artifact noise)
  ∧ clamp_to_one (zip_with (λ a n, (a + b2z n)%Z) artifact noise)
    = zip_with (λ a (n : bool), if n then 1%Z else a) artifact noise.
Proof.
  intros noise Hlen Hbits. split.
  - unfold iadd. rewrite broadcast_to_same by (by rewrite length_map).
    cbn [mbind outcome_bind]. f_equal.
    clear Hlen Hbits. revert noise.
    induction artifact as [|a artifact IH]; intros [|n noise]; cbn; [done..|].
    f_equal. apply IH.
  - clear Hlen. revert noise.
    induction Hbits as [|a artifact Ha _ IH]; intros [|n noise]; cbn; [done..|].
    rewrite IH. f_equal. destruct Ha as [-> | ->], n; reflexivity.
Qed.

(** X26.  With [include_noise=False] the stored artifact vector is merged
    with the noise labels before the components are selected: the result is
    that of a dictionary whose artifact vector already flags every noise
    component. *)
Theorem roi_timecourse_leaves_noise_out c c' mask include_zero invert_artifact
    artifact noise :
  Ica.artifact_components c = Some artifact →
  noise_components c = Some noise →
  length noise = length artifact →
  Forall (λ a, a = 0%Z ∨ a = 1%Z) artifact →
  eig_vec c' = eig_vec c → eig_mix c' = eig_mix c → roimask c' = roimask c →
  Ica.artifact_components c'
  = Some (zip_with (λ a (n : bool), if n then 1%Z else a) artifact noise) →
  rebuild_mean_roi_timecourse c mask include_zero true invert_artifact false
  = rebuild_mean_roi_timecourse c' mask include_zero true invert_artifact true.
Proof.
  intros Hart Hnoise Hlen Hbits Hvec Hmix Hroi Hart'.
  destruct (merge_noise artifact noise Hlen Hbits) as [Hadd Hclamp].
  unfold rebuild_mean_roi_timecourse, roi_signal_factors.
  rewrite Hart, Hart', Hnoise, Hvec, Hmix, Hroi.
  cbn [negb]. rewrite Hadd. cbn [mbind outcome_bind]. by rewrite Hclamp.
Qed.

End Regions.

Section EigenbrainRuns.

Import StandIn.

(** The second component, put back on the two-by-three frame. *)
Lemma eigenbrain_round_trip_witness :
  ∃ m, rebuild_eigenbrain maps (Some 1%Z) (Some region) None false = Ok (One m)
     ∧ take_indices (map_flat m) [0; 2; 3] = Ok [Some 4; Some 5; Some 6]%Q.
Proof.
  destruct (eigenbrain_round_trip maps 1 region None [4; 5; 6]%Q)
    as (m & Hm & _ & _ & Hback & _); [reflexivity | lia | reflexivity..|].
  exists m. split; [exact Hm | exact Hback].
Defined.

Lemma eigenbrain_index_from_the_end_witness :
  rebuild_eigenbrain maps (Some (-2)%Z) (Some region) None false
  = rebuild_eigenbrain maps (Some 0%Z) (Some region) None false.
Proof.
  apply (eigenbrain_index_from_the_end maps 0 (Some region) None).
  vm_compute. lia.
Defined.

Lemma eigenbrain_index_out_of_range_witness :
  rebuild_eigenbrain maps (Some 2%Z) (Some region) None false = Raise IndexError.
Proof.
  apply eigenbrain_index_out_of_range; [left; eauto | right; vm_compute; discriminate].
Defined.

Lemma bulk_agrees_with_single_witness :
  ∃ ms, rebuild_eigenbrain maps None (Some region) None true = Ok (Stack ms)
      ∧ length ms = 2
      ∧ ∀ i m, ms !! i = Some m →
          rebuild_eigenbrain maps (Some (Z.of_nat i)) (Some region) None false
          = Ok (One m).
Proof.
  apply (bulk_agrees_with_single maps None region None); [reflexivity|].
  repeat constructor.
Defined.

End EigenbrainRuns.

Section RegionsRuns.

Import StandIn.

Lemma small_labels : Forall (λ label, label < 2 ^ 16 - 1) (omap id regions).
Proof.
  constructor; [apply Nat.ltb_lt; vm_compute; reflexivity|].
  constructor; [apply Nat.ltb_lt; vm_compute; reflexivity|].
  constructor.
Defined.

(** Labels 0 and 2: three rows, the row of the absent label 1 not a
    number. *)
Lemma roi_timecourses_shape_witness :
  ∃ tcs, rebuild_mean_roi_timecourse curated regions true true false true = Ok tcs
       ∧ length tcs = 3
       ∧ tcs !! 1 = Some (replicate 4 None).
Proof.
  destruct (rebuild_mean_roi_timecourse curated regions true true false true)
    as [tcs| |] eqn:Hrun; [|vm_compute in Hrun; discriminate..].
  destruct (roi_timecourses_shape _ _ _ _ _ _ _ small_labels Hrun) as (Hlen & _ & Hnan).
  exists tcs. split; [done|]. split; [exact Hlen|].
  apply (Hnan 1); [cbn; lia | vm_compute; lia|].
  apply (bool_decide_unpack _). vm_compute. exact I.
Defined.


Lemma roi_timecourse_without_labels_witness :
  rebuild_mean_roi_timecourse curated [None; None] true true false true
  = Raise ValueError.
Proof.
  apply roi_timecourse_without_labels; [repeat constructor|].
  eexists. reflexivity.
Defined.

Lemma roi_timecourse_leaves_noise_out_witness :
  rebuild_mean_roi_timecourse curated regions true true false false
  = rebuild_mean_roi_timecourse flagged regions true true false true.
Proof.
  apply (roi_timecourse_leaves_noise_out curated flagged regions true false
           [0; 0]%Z [false; true]); try reflexivity.
  repeat (constructor; [auto|]). constructor.
Defined.

End RegionsRuns.
